(** * Bing satellite downloader: bounding boxes and mosaic retrieval

    A shallow embedding of the two Python sources,
    [calculate_bounding_box.py] and [bing_download.py], together with the
    properties of the bounding-box computation, of the resolution search and
    of the mosaic assembly.

    Floating-point arithmetic is read over the exact reals; the network, the
    file system and the console are an explicit world threaded through a
    state-and-exception monad. *)

From Stdlib Require Import ZArith List String Ascii DecimalString Bool Lia.
From Stdlib Require Import Reals Lra.
Import ListNotations.

Local Open Scope Z_scope.

(* ================================================================== *)
(** * calculate_bounding_box.py *)
(* ================================================================== *)

Module BoundingBoxUtil.

Local Open Scope R_scope.

(** [math.radians] and [math.degrees]. *)
Definition radians (deg : R) : R := deg * PI / 180.
Definition degrees (rad : R) : R := rad * 180 / PI.

(** Earth's radius in meters (the local [R] of the source). *)
Definition R_earth : R := 6378137.

(** [calculate_bounding_box(lat, lon, box_size_meters)]; the result is the
    tuple [(lat1, lon1, lat2, lon2)]. *)
Definition calculate_bounding_box (lat lon box_size_meters : R)
  : R * R * R * R :=
  let lat_rad := radians lat in
  let lon_rad := radians lon in
  let d_lat := box_size_meters / R_earth in
  let d_lon := box_size_meters / (R_earth * cos lat_rad) in
  let lat1 := degrees (lat_rad + d_lat / 2) in
  let lon1 := degrees (lon_rad - d_lon / 2) in
  let lat2 := degrees (lat_rad - d_lat / 2) in
  let lon2 := degrees (lon_rad + d_lon / 2) in
  (lat1, lon1, lat2, lon2).

End BoundingBoxUtil.

(* ================================================================== *)
(** * bing_download.py *)
(* ================================================================== *)

Module BingDownload.

(** ** Images (the part of PIL the program uses) *)

Definition Color : Type := (Z * Z * Z)%type.
Definition black : Color := (0, 0, 0).

(** An RGB raster: its size and the colour of each pixel.  Only the pixels
    with [0 <= x < width] and [0 <= y < height] are meaningful. *)
Record Image : Type := mkImage {
  width : Z;
  height : Z;
  getpixel : Z -> Z -> Color
}.

(** The raster [Image.new('RGB', (w, h))] allocates: all black. *)
Definition blank (w h : Z) : Image := mkImage w h (fun _ _ => black).

(** [dst.paste(src, (x0, y0))]: the pixels of [src] replace those of [dst]
    in the box with upper-left corner [(x0, y0)]; the size of [dst] is kept,
    whatever falls outside of it is dropped. *)
Definition paste (dst src : Image) (x0 y0 : Z) : Image :=
  mkImage (width dst) (height dst)
    (fun x y =>
       if (0 <=? x - x0) && (x - x0 <? width src)
          && (0 <=? y - y0) && (y - y0 <? height src)
       then getpixel src (x - x0) (y - y0)
       else getpixel dst x y).

(** Two rasters of the same size with the same pixels. *)
Definition same_raster (a b : Image) : Prop :=
  width a = width b /\ height a = height b /\
  forall x y, 0 <= x < width a -> 0 <= y < height a ->
              getpixel a x y = getpixel b x y.

(** ** Module constants *)

Definition BASEURL_format (quadkey : string) : string :=
  ("http://h0.ortho.tiles.virtualearth.net/tiles/h" ++ quadkey
     ++ ".jpeg?g=131")%string.
Definition IMAGEMAXSIZE : Z := 8192 * 8192 * 8.
Definition TILESIZE : Z := 256.

(** The quadkey [is_valid_image] fetches to obtain the placeholder tile. *)
Definition NULLKEY : string := "11111111111111111111"%string.

(** ** Python's [range] *)

(** [range(a, b)]: [a, a+1, ..., b-1]. *)
Definition range (a b : Z) : list Z :=
  map (fun i => a + Z.of_nat i) (seq 0 (Z.to_nat (b - a))).

(** [range(a, b, -1)]: [a, a-1, ..., b+1]. *)
Definition range_down (a b : Z) : list Z :=
  map (fun i => a - Z.of_nat i) (seq 0 (Z.to_nat (a - b))).

(** ** The integer part of TileSystem *)

(** Modelled from the spec: [tilesystem.py] is not among the sources; the
    spec gives MAXLEVEL = 23 in the reference scheme. *)
Definition MAXLEVEL : Z := 23.

(** Modelled from the spec: [TileSystem.map_size] is missing;
    [map_size(level) = 256 * 2^level]. *)
Definition map_size (level : Z) : Z := 256 * 2 ^ level.

(** Modelled from the spec: [TileSystem.clip] is missing; a standard clamp
    of [val] into [[minval, maxval]]. *)
Definition clip (val minval maxval : R) : R :=
  Rmin (Rmax val minval) maxval.

(** Modelled from the spec: [TileSystem.pixelXY_to_tileXY] is missing;
    integer (floor) division by the tile edge length 256. *)
Definition pixelXY_to_tileXY (pixelX pixelY : Z) : Z * Z :=
  (pixelX / 256, pixelY / 256).

Definition quadkey_digit (tileX tileY : Z) (bit : nat) : Ascii.ascii :=
  match Z.testbit tileY (Z.of_nat bit), Z.testbit tileX (Z.of_nat bit) with
  | false, false => "0"%char
  | false, true => "1"%char
  | true, false => "2"%char
  | true, true => "3"%char
  end.

(** The digits for the bit positions [n-1], ..., [0], in this order. *)
Fixpoint quadkey_digits (tileX tileY : Z) (n : nat) : string :=
  match n with
  | O => EmptyString
  | S m => String (quadkey_digit tileX tileY m) (quadkey_digits tileX tileY m)
  end.

(** Modelled from the spec: [TileSystem.tileXY_to_quadkey] is missing; one
    digit [2*bit(tileY) + bit(tileX)] per level, most significant first. *)
Definition tileXY_to_quadkey (tileX tileY level : Z) : string :=
  quadkey_digits tileX tileY (Z.to_nat level).

(** ** The floating-point part of TileSystem and the outside world *)

(** The conversions of TileSystem that compute with sines and logarithms are
    taken as they come; so is the text Python prints for a coordinate.  The
    program never inspects a latitude or longitude itself, so their type
    [Geo] is left open. *)
Class TileSystemFloat (Geo : Type) : Type := {
  float_str : Geo -> string;
  ground_resolution : Geo -> Z -> R;
  latlong_to_pixelXY : Geo -> Geo -> Z -> Z * Z;
  pixelXY_to_latlong : R -> R -> Z -> Geo * Geo
}.

(** The imagery service and PIL's image comparison.  [urlopen url] is the
    decoded image served at [url], or [None] when [request.urlopen] raises;
    [image_eq] is [Image.__eq__]. *)
Class Imagery : Type := {
  urlopen : string -> option Image;
  image_eq : Image -> Image -> bool
}.

(** ** Worlds, exceptions and the monad of the program *)

Inductive Exn : Type :=
| URLError
| ValueError
| ZeroDivisionError
| FileNotFoundError.

Inductive Res (A : Type) : Type :=
| Ok (a : A)
| Raise (e : Exn).
Arguments Ok {A} a.
Arguments Raise {A} e.

(** A [for] body either returns from the enclosing function or falls through
    to the next iteration. *)
Inductive Ctl (A : Type) : Type :=
| Return (a : A)
| Continue.
Arguments Return {A} a.
Arguments Continue {A}.

Section Monad.

Variable Geo : Type.

(** What the program prints, line by line. *)
Inductive Msg : Type :=
| ClippedPixels (pixelX1 pixelY1 pixelX2 pixelY2 : R)
| CalculatedBoundingBox (lat1 lon1 lat2 lon2 : Geo)
| NoImagery
| NoTile (level tileX tileY : Z)
| ImageSaved (filename : string)
| Processing (lat lon : Geo)
| FailedLocation (lat lon : Geo).

(** The world outside the interpreter; every list has its latest entry
    first. *)
Record World : Type := mkWorld {
  requests : list string;            (* URLs opened *)
  null_png : option Image;           (* the file ./null.png *)
  files : list (string * Image);     (* images saved under a file name *)
  stdout : list Msg
}.

Definition M (A : Type) : Type := World -> Res A * World.

Definition ret {A : Type} (a : A) : M A := fun w => (Ok a, w).

Definition raise {A : Type} (e : Exn) : M A := fun w => (Raise e, w).

Definition bind {A B : Type} (m : M A) (k : A -> M B) : M B :=
  fun w =>
    match m w with
    | (Ok a, w') => k a w'
    | (Raise e, w') => (Raise e, w')
    end.

End Monad.

Arguments ClippedPixels {Geo}.
Arguments CalculatedBoundingBox {Geo}.
Arguments NoImagery {Geo}.
Arguments NoTile {Geo}.
Arguments ImageSaved {Geo}.
Arguments Processing {Geo}.
Arguments FailedLocation {Geo}.
Arguments mkWorld {Geo}.
Arguments requests {Geo}.
Arguments null_png {Geo}.
Arguments files {Geo}.
Arguments stdout {Geo}.
Arguments ret {Geo A}.
Arguments raise {Geo A}.
Arguments bind {Geo A B}.

Declare Scope prog_scope.
Delimit Scope prog_scope with prog.
Notation "x <- m ;; k" := (bind m (fun x => k))
  (at level 61, m at next level, right associativity) : prog_scope.
Notation "m ;; k" := (bind m (fun _ => k))
  (at level 61, right associativity) : prog_scope.

Local Open Scope prog_scope.

(** ** Primitive effects *)

Section Effects.

Context {Geo : Type} {IM : Imagery}.

(** The world after one more line was printed. *)
Definition printed (m : Msg Geo) (w : World Geo) : World Geo :=
  mkWorld (requests w) (null_png w) (files w) (m :: stdout w).

Definition print (m : Msg Geo) : M Geo unit :=
  fun w => (Ok tt, printed m w).

(** [Image.open(request.urlopen(url))]: the request is made, and it either
    yields an image or raises. *)
Definition open_url (url : string) : M Geo Image :=
  fun w =>
    let w' := mkWorld (url :: requests w) (null_png w) (files w) (stdout w) in
    match urlopen url with
    | Some image => (Ok image, w')
    | None => (Raise URLError, w')
    end.

(** [os.path.exists('null.png')] *)
Definition null_png_exists : M Geo bool :=
  fun w => (Ok (match null_png w with Some _ => true | None => false end), w).

(** [nullimg.save('./null.png')] *)
Definition save_null_png (nullimg : Image) : M Geo unit :=
  fun w => (Ok tt, mkWorld (requests w) (Some nullimg) (files w) (stdout w)).

(** [Image.open('./null.png')] *)
Definition open_null_png : M Geo Image :=
  fun w =>
    match null_png w with
    | Some image => (Ok image, w)
    | None => (Raise FileNotFoundError, w)
    end.

(** [Image.new('RGB', (w, h))]: PIL refuses a negative size. *)
Definition Image_new (w h : Z) : M Geo Image :=
  if (w <? 0) || (h <? 0) then raise ValueError else ret (blank w h).

(** [image.save(filename)] for a [.jpeg] name: PIL's JPEG writer refuses an
    empty image. *)
Definition Image_save (image : Image) (filename : string) : M Geo unit :=
  if (width image =? 0) || (height image =? 0) then raise ValueError
  else fun w =>
         (Ok tt,
          mkWorld (requests w) (null_png w) ((filename, image) :: files w)
                  (stdout w)).

(** Python's [x / y] on floats. *)
Definition py_div (x y : R) : M Geo R :=
  if Req_dec_T y 0 then raise ZeroDivisionError else ret (x / y)%R.

End Effects.

(** [os.path.join(a, b)] for a relative [b]. *)
Fixpoint ends_with_sep (a : string) : bool :=
  match a with
  | EmptyString => false
  | String c EmptyString => Ascii.eqb c "/"
  | String _ rest => ends_with_sep rest
  end.

Definition os_path_join (a b : string) : string :=
  match a with
  | EmptyString => b
  | _ => if ends_with_sep a then (a ++ b)%string else (a ++ "/" ++ b)%string
  end.

(** ** class AerialImageRetrieval *)

Record AerialImageRetrieval (Geo : Type) : Type := mkRetrieval {
  coords : list (Geo * Geo);
  size_meters : R;
  tgtfolder : string
}.
Arguments mkRetrieval {Geo}.
Arguments coords {Geo}.
Arguments size_meters {Geo}.
Arguments tgtfolder {Geo}.

(** [__init__]; the directory [./output/] is created if it is missing. *)
Definition init {Geo : Type} (coords : list (Geo * Geo)) (size_meters : R)
  : AerialImageRetrieval Geo :=
  mkRetrieval coords size_meters "./output/".

Section Program.

Context {Geo : Type} {TS : TileSystemFloat Geo} {IM : Imagery}.

Definition download_image (quadkey : string) : M Geo Image :=
  open_url (BASEURL_format quadkey).

Definition is_valid_image (image : Image) : M Geo bool :=
  cached <- null_png_exists ;;
  (if negb cached
   then nullimg <- download_image NULLKEY ;; save_null_png nullimg
   else ret tt) ;;
  null <- open_null_png ;;
  ret (negb (image_eq image null)).

Definition calculate_bounding_box (self : AerialImageRetrieval Geo)
    (lat lon : Geo) : M Geo (Geo * Geo * Geo * Geo) :=
  let level := MAXLEVEL in
  let ground_res := ground_resolution lat level in
  half_size_pixels <- py_div (size_meters self / 2) ground_res ;;
  let (center_pixelX, center_pixelY) := latlong_to_pixelXY lat lon level in
  let pixelX1 := (IZR center_pixelX - half_size_pixels)%R in
  let pixelX2 := (IZR center_pixelX + half_size_pixels)%R in
  let pixelY1 := (IZR center_pixelY - half_size_pixels)%R in
  let pixelY2 := (IZR center_pixelY + half_size_pixels)%R in
  let map_size := map_size level in
  let pixelX1 := clip pixelX1 0 (IZR (map_size - 1)) in
  let pixelX2 := clip pixelX2 0 (IZR (map_size - 1)) in
  let pixelY1 := clip pixelY1 0 (IZR (map_size - 1)) in
  let pixelY2 := clip pixelY2 0 (IZR (map_size - 1)) in
  print (ClippedPixels pixelX1 pixelY1 pixelX2 pixelY2) ;;
  let (lat1, lon1) := pixelXY_to_latlong pixelX1 pixelY1 level in
  let (lat2, lon2) := pixelXY_to_latlong pixelX2 pixelY2 level in
  print (CalculatedBoundingBox lat1 lon1 lat2 lon2) ;;
  ret (lat1, lon1, lat2, lon2).

(** The four clipped pixel coordinates [calculate_bounding_box] computes
    from the half side [half_size_pixels], as [(pixelX1, pixelY1, pixelX2,
    pixelY2)]. *)
Definition clipped_corner_pixels (lat lon : Geo) (half_size_pixels : R)
  : R * R * R * R :=
  let level := MAXLEVEL in
  let (center_pixelX, center_pixelY) := latlong_to_pixelXY lat lon level in
  let pixelX1 := (IZR center_pixelX - half_size_pixels)%R in
  let pixelX2 := (IZR center_pixelX + half_size_pixels)%R in
  let pixelY1 := (IZR center_pixelY - half_size_pixels)%R in
  let pixelY2 := (IZR center_pixelY + half_size_pixels)%R in
  let map_size := map_size level in
  (clip pixelX1 0 (IZR (map_size - 1)), clip pixelY1 0 (IZR (map_size - 1)),
   clip pixelX2 0 (IZR (map_size - 1)), clip pixelY2 0 (IZR (map_size - 1))).

(** The box [calculate_bounding_box] returns for four pixel coordinates:
    the two calls of [pixelXY_to_latlong]. *)
Definition box_of_pixels (pixels : R * R * R * R) : Geo * Geo * Geo * Geo :=
  let '(pixelX1, pixelY1, pixelX2, pixelY2) := pixels in
  let (lat1, lon1) := pixelXY_to_latlong pixelX1 pixelY1 MAXLEVEL in
  let (lat2, lon2) := pixelXY_to_latlong pixelX2 pixelY2 MAXLEVEL in
  (lat1, lon1, lat2, lon2).

(** The inner loop [for tileX in range(tileX1, tileX2 + 1)], run over the
    columns still to visit: [inl b] when the function returns [b] from inside
    the loop, [inr imagelist] when the loop runs to its end. *)
Fixpoint fetch_row (level tileY : Z) (tileXs : list Z) (imagelist : list Image)
  : M Geo (bool + list Image) :=
  match tileXs with
  | [] => ret (inr imagelist)
  | tileX :: rest =>
      let quadkey := tileXY_to_quadkey tileX tileY level in
      image <- download_image quadkey ;;
      valid <- is_valid_image image ;;
      if valid then fetch_row level tileY rest (imagelist ++ [image])
      else print (NoTile level tileX tileY) ;; ret (inl false)
  end.

(** [for i, image in enumerate(imagelist): row_image.paste(image, (i * TILESIZE, 0))],
    from index [i] on. *)
Fixpoint paste_tiles (i : Z) (imagelist : list Image) (row_image : Image)
  : Image :=
  match imagelist with
  | [] => row_image
  | image :: rest =>
      paste_tiles (i + 1) rest (paste row_image image (i * TILESIZE) 0)
  end.

(** The outer loop [for tileY in range(tileY1, tileY2 + 1)], run over the
    rows still to visit. *)
Fixpoint fetch_rows (level tileX1 tileX2 tileY1 : Z) (tileYs : list Z)
    (result : Image) : M Geo (bool + Image) :=
  match tileYs with
  | [] => ret (inr result)
  | tileY :: rest =>
      r <- fetch_row level tileY (range tileX1 (tileX2 + 1)) [] ;;
      match r with
      | inl b => ret (inl b)
      | inr imagelist =>
          row_image <- Image_new (Z.of_nat (List.length imagelist) * TILESIZE)
                                 TILESIZE ;;
          let row_image := paste_tiles 0 imagelist row_image in
          fetch_rows level tileX1 tileX2 tileY1 rest
            (paste result row_image 0 ((tileY - tileY1) * TILESIZE))
      end
  end.

(** The body of [for level in range(TileSystem.MAXLEVEL, 0, -1)]. *)
Definition level_body (self : AerialImageRetrieval Geo)
    (lat1 lon1 lat2 lon2 : Geo) (level : Z) : M Geo (Ctl bool) :=
  let (pixelX1, pixelY1) := latlong_to_pixelXY lat1 lon1 level in
  let (pixelX2, pixelY2) := latlong_to_pixelXY lat2 lon2 level in
  if (Z.abs (pixelX1 - pixelX2) <=? 1) || (Z.abs (pixelY1 - pixelY2) <=? 1)
  then print NoImagery ;; ret (Return false)
  else
    let (tileX1, tileY1) := pixelXY_to_tileXY pixelX1 pixelY1 in
    let (tileX2, tileY2) := pixelXY_to_tileXY pixelX2 pixelY2 in
    result <- Image_new ((tileX2 - tileX1 + 1) * TILESIZE)
                        ((tileY2 - tileY1 + 1) * TILESIZE) ;;
    r <- fetch_rows level tileX1 tileX2 tileY1 (range tileY1 (tileY2 + 1))
                    result ;;
    match r with
    | inl b => ret (Return b)
    | inr result =>
        let filename :=
          os_path_join (tgtfolder self)
            ("aerialImage_" ++ float_str lat1 ++ "_" ++ float_str lon1
               ++ ".jpeg") in
        Image_save result filename ;;
        print (ImageSaved filename) ;;
        ret (Return true)
    end.

(** A [for] loop whose body may return from the function; [default] is what
    the function returns after the loop. *)
Fixpoint for_return {A B : Type} (items : list A) (body : A -> M Geo (Ctl B))
    (default : B) : M Geo B :=
  match items with
  | [] => ret default
  | item :: rest =>
      c <- body item ;;
      match c with
      | Return b => ret b
      | Continue => for_return rest body default
      end
  end.

Definition max_resolution_imagery_retrieval (self : AerialImageRetrieval Geo)
    (lat1 lon1 lat2 lon2 : Geo) : M Geo bool :=
  for_return (range_down MAXLEVEL 0) (level_body self lat1 lon1 lat2 lon2)
             false.

(** A [for] loop that runs its body on every item. *)
Fixpoint for_each {A : Type} (items : list A) (body : A -> M Geo unit)
  : M Geo unit :=
  match items with
  | [] => ret tt
  | item :: rest => body item ;; for_each rest body
  end.

(** The body of the loop of [retrieve_images]. *)
Definition retrieve_one (self : AerialImageRetrieval Geo) (c : Geo * Geo)
  : M Geo unit :=
  let (lat, lon) := c in
  box <- calculate_bounding_box self lat lon ;;
  let '(lat1, lon1, lat2, lon2) := box in
  print (Processing lat lon) ;;
  success <- max_resolution_imagery_retrieval self lat1 lon1 lat2 lon2 ;;
  if negb success then print (FailedLocation lat lon) else ret tt.

Definition retrieve_images (self : AerialImageRetrieval Geo) : M Geo unit :=
  for_each (coords self) (retrieve_one self).

(** The name of the file the mosaic of a box is saved under. *)
Definition mosaic_filename (self : AerialImageRetrieval Geo)
    (lat1 lon1 : Geo) : string :=
  os_path_join (tgtfolder self)
    ("aerialImage_" ++ float_str lat1 ++ "_" ++ float_str lon1 ++ ".jpeg").

(** The search as the spec allows it to be written: one attempt at the
    finest level, without a loop. *)
Definition finest_level_attempt (self : AerialImageRetrieval Geo)
    (lat1 lon1 lat2 lon2 : Geo) : M Geo bool :=
  let (pixelX1, pixelY1) := latlong_to_pixelXY lat1 lon1 MAXLEVEL in
  let (pixelX2, pixelY2) := latlong_to_pixelXY lat2 lon2 MAXLEVEL in
  if (Z.abs (pixelX1 - pixelX2) <=? 1) || (Z.abs (pixelY1 - pixelY2) <=? 1)
  then print NoImagery ;; ret false
  else
    let (tileX1, tileY1) := pixelXY_to_tileXY pixelX1 pixelY1 in
    let (tileX2, tileY2) := pixelXY_to_tileXY pixelX2 pixelY2 in
    result <- Image_new ((tileX2 - tileX1 + 1) * TILESIZE)
                        ((tileY2 - tileY1 + 1) * TILESIZE) ;;
    r <- fetch_rows MAXLEVEL tileX1 tileX2 tileY1
                    (range tileY1 (tileY2 + 1)) result ;;
    match r with
    | inl b => ret b
    | inr result =>
        let filename :=
          os_path_join (tgtfolder self)
            ("aerialImage_" ++ float_str lat1 ++ "_" ++ float_str lon1
               ++ ".jpeg") in
        Image_save result filename ;;
        print (ImageSaved filename) ;;
        ret true
    end.

End Program.

(** ** What the tile loops compute, stated without the world *)

(** How a loop over tiles ends: it runs to its end with a value, it stops at
    a tile that is the placeholder, or an exception escapes. *)
Inductive Outcome (A : Type) : Type :=
| Done (a : A)
| Invalid (tileX tileY : Z)
| Failed (e : Exn).
Arguments Done {A} a.
Arguments Invalid {A} tileX tileY.
Arguments Failed {A} e.

Section Assembly.

Context {IM : Imagery}.

(** What the service answers for the tile [(tileX, tileY)] of [level]. *)
Definition tile_at (level tileX tileY : Z) : option Image :=
  urlopen (BASEURL_format (tileXY_to_quadkey tileX tileY level)).

(** The image of a tile that is served. *)
Definition tile_image (level tileY tileX : Z) : Image :=
  match tile_at level tileX tileY with
  | Some image => image
  | None => blank 0 0
  end.

(** The placeholder [is_valid_image] compares with in a world: the cached
    [null.png] if there is one, else what the service answers for the
    reserved quadkey ([None] when that request raises). *)
Definition sentinel {Geo : Type} (w : World Geo) : option Image :=
  match null_png w with
  | Some null => Some null
  | None => urlopen (BASEURL_format NULLKEY)
  end.

(** A tile is unavailable when its fetch raises, when the placeholder cannot
    be obtained, or when it equals the placeholder. *)
Definition unavailable (s : option Image) (level tileX tileY : Z) : Prop :=
  match tile_at level tileX tileY, s with
  | Some image, Some null => image_eq image null = true
  | _, _ => True
  end.

Fixpoint row_outcome (s : option Image) (level tileY : Z) (tileXs : list Z)
    (imagelist : list Image) : Outcome (list Image) :=
  match tileXs with
  | [] => Done imagelist
  | tileX :: rest =>
      match tile_at level tileX tileY, s with
      | None, _ => Failed URLError
      | Some _, None => Failed URLError
      | Some image, Some null =>
          if image_eq image null then Invalid tileX tileY
          else row_outcome s level tileY rest (imagelist ++ [image])
      end
  end.

(** What a tile loop that ends with [o] hands back: the loop's value, the
    [False] returned from inside the loop, or the exception. *)
Definition loop_result {A : Type} (o : Outcome A) : Res (bool + A) :=
  match o with
  | Done a => Ok (inr a)
  | Invalid _ _ => Ok (inl false)
  | Failed e => Raise e
  end.

(** What a tile loop that ends with [o] has printed on top of [out]. *)
Definition loop_stdout {Geo A : Type} (level : Z) (o : Outcome A)
    (out : list (Msg Geo)) : list (Msg Geo) :=
  match o with
  | Invalid tileX tileY => NoTile level tileX tileY :: out
  | _ => out
  end.

(** The row buffer built from the images of one row. *)
Definition row_buffer (imagelist : list Image) : Image :=
  paste_tiles 0 imagelist
    (blank (Z.of_nat (List.length imagelist) * TILESIZE) TILESIZE).

Fixpoint rows_outcome (s : option Image) (level tileX1 tileX2 tileY1 : Z)
    (tileYs : list Z) (result : Image) : Outcome Image :=
  match tileYs with
  | [] => Done result
  | tileY :: rest =>
      match row_outcome s level tileY (range tileX1 (tileX2 + 1)) [] with
      | Done imagelist =>
          rows_outcome s level tileX1 tileX2 tileY1 rest
            (paste result (row_buffer imagelist) 0
                   ((tileY - tileY1) * TILESIZE))
      | Invalid tileX tileY' => Invalid tileX tileY'
      | Failed e => Failed e
      end
  end.

(** The raster the program composes when every tile of the range is served:
    row by row, each row through its buffer. *)
Definition compose_rows (level tileX1 tileX2 tileY1 : Z) (tileYs : list Z)
    (result : Image) : Image :=
  fold_left
    (fun result tileY =>
       paste result
         (row_buffer (map (tile_image level tileY) (range tileX1 (tileX2 + 1))))
         0 ((tileY - tileY1) * TILESIZE))
    tileYs result.

Definition composed (level tileX1 tileY1 tileX2 tileY2 : Z) : Image :=
  compose_rows level tileX1 tileX2 tileY1 (range tileY1 (tileY2 + 1))
    (blank ((tileX2 - tileX1 + 1) * TILESIZE)
           ((tileY2 - tileY1 + 1) * TILESIZE)).

(** The placement the spec describes: every tile of the range pasted on its
    own, at offset [((tileX - tileX1) * 256, (tileY - tileY1) * 256)]. *)
Definition place_row (level tileX1 tileY1 tileY : Z) (tileXs : list Z)
    (result : Image) : Image :=
  fold_left
    (fun result tileX =>
       paste result (tile_image level tileY tileX)
             ((tileX - tileX1) * 256) ((tileY - tileY1) * 256))
    tileXs result.

Definition place_rows (level tileX1 tileX2 tileY1 : Z) (tileYs : list Z)
    (result : Image) : Image :=
  fold_left
    (fun result tileY =>
       place_row level tileX1 tileY1 tileY (range tileX1 (tileX2 + 1)) result)
    tileYs result.

Definition direct_placement (level tileX1 tileY1 tileX2 tileY2 : Z) : Image :=
  place_rows level tileX1 tileX2 tileY1 (range tileY1 (tileY2 + 1))
    (blank ((tileX2 - tileX1 + 1) * 256) ((tileY2 - tileY1 + 1) * 256)).

(** Every tile the service serves has the fixed tile size. *)
Definition tiles_are_256 : Prop :=
  forall url image, urlopen url = Some image ->
                    width image = 256 /\ height image = 256.

(** [w'] comes from [w] by opening URLs that satisfy [P] and, possibly, by
    caching the placeholder: no image file is written and the placeholder
    the validity check uses stays the same. *)
Definition fetched_only {Geo : Type} (P : string -> Prop) (w w' : World Geo)
  : Prop :=
  files w' = files w /\ sentinel w' = sentinel w /\
  exists new, requests w' = new ++ requests w /\ Forall P new.

(** The URLs a row of tiles may open. *)
Definition row_url (level tileY : Z) (tileXs : list Z) (url : string) : Prop :=
  url = BASEURL_format NULLKEY \/
  exists tileX, In tileX tileXs /\
                url = BASEURL_format (tileXY_to_quadkey tileX tileY level).

(** The URLs a range of tiles may open. *)
Definition grid_url (level tileX1 tileX2 : Z) (tileYs : list Z) (url : string)
  : Prop :=
  exists tileY, In tileY tileYs /\
                row_url level tileY (range tileX1 (tileX2 + 1)) url.

End Assembly.

(** Every tile has the fixed tile size. *)
Definition tile_sized (image : Image) : Prop :=
  width image = 256 /\ height image = 256.

Section Saved.

Context {Geo : Type} {TS : TileSystemFloat Geo} {IM : Imagery}.

(** The world after a successful retrieval that started in [w] and fetched
    its tiles on the way to [w1]: the composed raster is saved under the
    name of the box, and the saving is printed. *)
Definition saved_world (self : AerialImageRetrieval Geo) (lat1 lon1 : Geo)
    (tileX1 tileY1 tileX2 tileY2 : Z) (w w1 : World Geo) : World Geo :=
  mkWorld (requests w1) (null_png w1)
    ((mosaic_filename self lat1 lon1,
      composed MAXLEVEL tileX1 tileY1 tileX2 tileY2) :: files w)
    (ImageSaved (mosaic_filename self lat1 lon1) :: stdout w).

End Saved.

(** ** Traces: what was requested and what was printed *)

Section Traces.

Context {Geo : Type}.

(** The world after the URLs [urls] were opened, the last one first. *)
Definition add_requests (urls : list string) (w : World Geo) : World Geo :=
  mkWorld (urls ++ requests w) (null_png w) (files w) (stdout w).

(** The URL [download_image] opens for the tile [(tileX, tileY)]. *)
Definition tile_url (level : Z) (tile : Z * Z) : string :=
  BASEURL_format (tileXY_to_quadkey (fst tile) (snd tile) level).

(** The tiles [(tileX, tileY)] of the columns [tileXs] and rows [tileYs] in
    the order of the two nested loops: row by row, each row from left to
    right. *)
Definition row_major (tileXs tileYs : list Z) : list (Z * Z) :=
  flat_map (fun tileY => map (fun tileX => (tileX, tileY)) tileXs) tileYs.

(** The coordinates of the [Processing location] lines of an output, the
    latest first. *)
Definition processing_lines (out : list (Msg Geo)) : list (Geo * Geo) :=
  flat_map (fun m => match m with
                     | Processing lat lon => [(lat, lon)]
                     | _ => []
                     end) out.

(** The coordinates of the [Failed to retrieve image] lines of an output,
    the latest first. *)
Definition failed_lines (out : list (Msg Geo)) : list (Geo * Geo) :=
  flat_map (fun m => match m with
                     | FailedLocation lat lon => [(lat, lon)]
                     | _ => []
                     end) out.

End Traces.

End BingDownload.

(* ================================================================== *)
(** * Small closed scenarios *)
(* ================================================================== *)

(** Concrete tile systems, imagery services and worlds on which the program
    can be run. *)
Module Scenario.

Import BingDownload.

(** A 256x256 tile of one colour. *)
Definition solid (c : Color) : Image := mkImage 256 256 (fun _ _ => c).

Definition color_eqb (a b : Color) : bool :=
  let '(r1, g1, b1) := a in
  let '(r2, g2, b2) := b in
  (r1 =? r2) && (g1 =? g2) && (b1 =? b2).

(** An image comparison that is enough for one-colour tiles. *)
Definition corner_eq (a b : Image) : bool :=
  (width a =? width b) && (height a =? height b)
  && color_eqb (getpixel a 0 0) (getpixel b 0 0).

Definition grey : Color := (128, 128, 128).
Definition red : Color := (255, 0, 0).
Definition blue : Color := (0, 0, 255).

Definition placeholder : Image := solid grey.

(** A service with coverage everywhere: every tile has colour [c], the
    reserved quadkey yields the placeholder. *)
Definition coverage (c : Color) : Imagery := {|
  urlopen url :=
    if String.eqb url (BASEURL_format NULLKEY) then Some placeholder
    else Some (solid c);
  image_eq := corner_eq
|}.

(** A service without coverage: every request yields the placeholder. *)
Definition no_coverage : Imagery := {|
  urlopen _ := Some placeholder;
  image_eq := corner_eq
|}.

(** An unreachable service: every request raises. *)
Definition offline : Imagery := {|
  urlopen _ := None;
  image_eq := corner_eq
|}.


(** A tile system whose coordinates are pixels of the finest level:
    [lon] is the pixel column, [lat] the pixel row; a level coarser by one
    halves both.  Every pixel converts back to the origin. *)
Definition pixel_grid : TileSystemFloat Z := {|
  float_str z := NilZero.string_of_int (Z.to_int z);
  ground_resolution _ _ := 1%R;
  latlong_to_pixelXY lat lon level :=
    (Z.shiftr lon (MAXLEVEL - level), Z.shiftr lat (MAXLEVEL - level));
  pixelXY_to_latlong _ _ _ := (0, 0)
|}.

(** The same at the finest level, and the origin at every other level. *)
Definition pixel_grid_finest_only : TileSystemFloat Z := {|
  float_str z := NilZero.string_of_int (Z.to_int z);
  ground_resolution _ _ := 1%R;
  latlong_to_pixelXY lat lon level :=
    if level =? MAXLEVEL then (lon, lat) else (0, 0);
  pixelXY_to_latlong _ _ _ := (0, 0)
|}.

(** Nothing requested, saved or printed yet, and no [null.png]. *)
Definition fresh : World Z := mkWorld [] None [] [].

Definition retrieval : AerialImageRetrieval Z := init [(5, 7); (9, 11)] 200.

(** The retrieval of the box with corners [(0, 0)] and [(300, 600)], a range
    of three by two tiles, in a fresh world. *)
Definition run (IM : Imagery) : Res bool * World Z :=
  max_resolution_imagery_retrieval (TS := pixel_grid) (IM := IM)
    retrieval 0 0 300 600 fresh.

(** A world in which [null.png] holds the placeholder already. *)
Definition cached : World Z := mkWorld [] (Some placeholder) [] [].

(** A service with coverage everywhere but at the tile [(1, 0)] of the
    finest level, which is the placeholder. *)
Definition gap : Imagery := {|
  urlopen url :=
    if String.eqb url (tile_url MAXLEVEL (1, 0)) then Some placeholder
    else if String.eqb url (BASEURL_format NULLKEY) then Some placeholder
    else Some (solid red);
  image_eq := corner_eq
|}.

(** A tile system like [pixel_grid] that converts a pixel back to one of
    two points: the origin for the columns up to 1000, the point
    [(300, 600)] for the columns right of it. *)
Definition split_grid : TileSystemFloat Z := {|
  float_str z := NilZero.string_of_int (Z.to_int z);
  ground_resolution _ _ := 1%R;
  latlong_to_pixelXY lat lon level :=
    (Z.shiftr lon (MAXLEVEL - level), Z.shiftr lat (MAXLEVEL - level));
  pixelXY_to_latlong x _ _ :=
    if Rle_dec x 1000 then (0, 0) else (300, 600)
|}.

(** Two coordinates: over [split_grid] the box of the first has the corners
    [(0, 0)] and [(300, 600)], the box of the second collapses. *)
Definition two_places : AerialImageRetrieval Z :=
  init [(500, 1000); (500, 5000)] 200.

End Scenario.

(* ================================================================== *)
(** * Statements to be tested against the program *)
(* ================================================================== *)

Module Stated.

Import BingDownload.

(** Were the composed raster handed back to the caller, two retrievals that
    hand back the same value would have composed the same raster. *)
Definition result_carries_raster : Prop :=
  forall (Geo : Type) (TS : TileSystemFloat Geo) (IM IM' : Imagery)
         (self : AerialImageRetrieval Geo) (lat1 lon1 lat2 lon2 : Geo)
         (w w1 w1' : World Geo) (r r' : Res bool)
         (name name' : string) (raster raster' : Image),
    max_resolution_imagery_retrieval (IM := IM) self lat1 lon1 lat2 lon2 w
    = (r, w1) ->
    max_resolution_imagery_retrieval (IM := IM') self lat1 lon1 lat2 lon2 w
    = (r', w1') ->
    files w1 = (name, raster) :: files w ->
    files w1' = (name', raster') :: files w ->
    r = r' -> same_raster raster raster'.


(** A coordinate whose retrieval meets an unavailable tile, be it the
    placeholder or a failed fetch, does not keep the coordinates after it
    from being processed: each of them gets its processing line. *)
Definition unavailable_tile_lets_batch_go_on : Prop :=
  forall (Geo : Type) (TS : TileSystemFloat Geo) (IM : Imagery)
         (self : AerialImageRetrieval Geo) (pre post : list (Geo * Geo))
         (lat lon lat1 lon1 lat2 lon2 : Geo)
         (pixelX1 pixelY1 pixelX2 pixelY2 tileX1 tileY1 tileX2 tileY2 : Z)
         (tileX tileY : Z) (w w1 w2 : World Geo),
    coords self = pre ++ (lat, lon) :: post ->
    for_each pre (retrieve_one self) w = (Ok tt, w1) ->
    calculate_bounding_box self lat lon w1
    = (Ok (lat1, lon1, lat2, lon2), w2) ->
    latlong_to_pixelXY lat1 lon1 MAXLEVEL = (pixelX1, pixelY1) ->
    latlong_to_pixelXY lat2 lon2 MAXLEVEL = (pixelX2, pixelY2) ->
    pixelXY_to_tileXY pixelX1 pixelY1 = (tileX1, tileY1) ->
    pixelXY_to_tileXY pixelX2 pixelY2 = (tileX2, tileY2) ->
    1 < Z.abs (pixelX1 - pixelX2) -> 1 < Z.abs (pixelY1 - pixelY2) ->
    tileX1 <= tileX <= tileX2 -> tileY1 <= tileY <= tileY2 ->
    unavailable (sentinel w2) MAXLEVEL tileX tileY ->
    forall c,
      In c post ->
      In c (processing_lines (stdout (snd (retrieve_images self w)))).

End Stated.

(* ================================================================== *)
(** * Properties of calculate_bounding_box.py *)
(* ================================================================== *)

Section BoundingBoxUtilFacts.

Import BoundingBoxUtil.
Local Open Scope R_scope.

Lemma degrees_radians (x : R) : degrees (radians x) = x.
Proof.
  unfold degrees, radians. field. apply PI_neq0.
Qed.

Lemma degrees_plus (a b : R) : degrees (a + b) = degrees a + degrees b.
Proof.
  unfold degrees. field. apply PI_neq0.
Qed.

Lemma degrees_minus (a b : R) : degrees (a - b) = degrees a - degrees b.
Proof.
  unfold degrees. field. apply PI_neq0.
Qed.

Lemma degrees_half (a : R) : degrees (a / 2) = degrees a / 2.
Proof.
  unfold degrees. field. apply PI_neq0.
Qed.

Lemma degrees_nonneg (a : R) : 0 <= a -> 0 <= degrees a.
Proof.
  intros Ha. unfold degrees.
  apply Rmult_le_pos.
  - lra.
  - left. apply Rinv_0_lt_compat. apply PI_RGT_0.
Qed.

Lemma R_earth_pos : 0 < R_earth.
Proof. unfold R_earth. lra. Qed.

(** Away from the poles the cosine of the latitude is positive. *)
Lemma cos_latitude_pos (lat : R) : Rabs lat < 90 -> 0 < cos (radians lat).
Proof.
  intros Hlat. apply Rabs_def2 in Hlat. destruct Hlat as [Hhi Hlo].
  pose proof PI_RGT_0 as Hpi.
  apply cos_gt_0; unfold radians; nra.
Qed.


(** C9: away from the poles and for a box side that is not negative, the
    first corner returned by [calculate_bounding_box] is the upper-left one
    and the second the lower-right one: [lat1 >= lat2] and [lon1 <= lon2]. *)
Theorem bounding_box_corners_ordered (lat lon box_size_meters : R) :
  Rabs lat < 90 -> 0 <= box_size_meters ->
  let '(lat1, lon1, lat2, lon2) :=
    BoundingBoxUtil.calculate_bounding_box lat lon box_size_meters in
  lat1 >= lat2 /\ lon1 <= lon2.
Proof.
  intros Hlat Hsize. unfold BoundingBoxUtil.calculate_bounding_box.
  pose proof (cos_latitude_pos lat Hlat) as Hcos.
  pose proof R_earth_pos as HR.
  assert (Hdlat : 0 <= box_size_meters / R_earth).
  { apply Rmult_le_pos; [assumption | left; apply Rinv_0_lt_compat; assumption]. }
  assert (Hdlon : 0 <= box_size_meters / (R_earth * cos (radians lat))).
  { apply Rmult_le_pos; [assumption |].
    left. apply Rinv_0_lt_compat. apply Rmult_lt_0_compat; assumption. }
  rewrite !degrees_plus, !degrees_minus.
  pose proof (degrees_nonneg _ Hdlat) as H1.
  pose proof (degrees_nonneg _ Hdlon) as H2.
  rewrite !degrees_half. split; lra.
Qed.

Lemma bounding_box_corners_ordered_witness :
  let '(lat1, lon1, lat2, lon2) :=
    BoundingBoxUtil.calculate_bounding_box 0 0 200 in
  lat1 >= lat2 /\ lon1 <= lon2.
Proof.
  apply (bounding_box_corners_ordered 0 0 200).
  - rewrite Rabs_R0. lra.
  - lra.
Defined.

(** C10: away from the poles the two corners returned by
    [calculate_bounding_box] are symmetric about the center:
    [(lat1 + lat2) / 2 = lat] and [(lon1 + lon2) / 2 = lon]. *)
Theorem bounding_box_centered (lat lon box_size_meters : R) :
  Rabs lat < 90 ->
  let '(lat1, lon1, lat2, lon2) :=
    BoundingBoxUtil.calculate_bounding_box lat lon box_size_meters in
  (lat1 + lat2) / 2 = lat /\ (lon1 + lon2) / 2 = lon.
Proof.
  intros Hlat. unfold BoundingBoxUtil.calculate_bounding_box.
  rewrite !degrees_plus, !degrees_minus, !degrees_radians.
  split; lra.
Qed.

Lemma bounding_box_centered_witness :
  let '(lat1, lon1, lat2, lon2) :=
    BoundingBoxUtil.calculate_bounding_box 0 0 200 in
  (lat1 + lat2) / 2 = 0 /\ (lon1 + lon2) / 2 = 0.
Proof.
  apply (bounding_box_centered 0 0 200).
  rewrite Rabs_R0. lra.
Defined.

End BoundingBoxUtilFacts.

(* ================================================================== *)
(** * Properties of bing_download.py *)
(* ================================================================== *)

Import BingDownload.
Local Open Scope prog_scope.

Section LevelSearch.

Context {Geo : Type} {TS : TileSystemFloat Geo} {IM : Imagery}.
Variable self : AerialImageRetrieval Geo.

Lemma range_down_MAXLEVEL :
  range_down MAXLEVEL 0 = MAXLEVEL :: range_down (MAXLEVEL - 1) 0.
Proof. reflexivity. Qed.

(** Whatever the first iteration of the level loop does, it is what the
    single attempt at the finest level does: no path through the body falls
    through to the next iteration. *)
Lemma first_iteration_decides (lat1 lon1 lat2 lon2 : Geo) (rest : list Z)
    (w : World Geo) :
  for_return (MAXLEVEL :: rest) (level_body self lat1 lon1 lat2 lon2) false w
  = finest_level_attempt self lat1 lon1 lat2 lon2 w.
Proof.
  simpl. unfold level_body, finest_level_attempt, bind.
  destruct (latlong_to_pixelXY lat1 lon1 MAXLEVEL) as [pixelX1 pixelY1].
  destruct (latlong_to_pixelXY lat2 lon2 MAXLEVEL) as [pixelX2 pixelY2].
  destruct ((Z.abs (pixelX1 - pixelX2) <=? 1)
            || (Z.abs (pixelY1 - pixelY2) <=? 1)).
  - reflexivity.
  - destruct (pixelXY_to_tileXY pixelX1 pixelY1) as [tileX1 tileY1].
    destruct (pixelXY_to_tileXY pixelX2 pixelY2) as [tileX2 tileY2].
    destruct (Image_new _ _ w) as [[result | e] w1]; [| reflexivity].
    destruct (fetch_rows _ _ _ _ _ _ w1) as [[[b | result'] | e] w2];
      try reflexivity.
    destruct (Image_save _ _ w2) as [[[] | e] w3]; reflexivity.
Qed.


(** The level loop is the single attempt at the finest level. *)
Lemma retrieval_is_finest_level_attempt (lat1 lon1 lat2 lon2 : Geo)
    (w : World Geo) :
  max_resolution_imagery_retrieval self lat1 lon1 lat2 lon2 w
  = finest_level_attempt self lat1 lon1 lat2 lon2 w.
Proof.
  unfold max_resolution_imagery_retrieval.
  rewrite range_down_MAXLEVEL. apply first_iteration_decides.
Qed.

(** A span that collapses at the finest level ends the retrieval at once. *)
Lemma retrieval_collapsed (lat1 lon1 lat2 lon2 : Geo)
    (pixelX1 pixelY1 pixelX2 pixelY2 : Z) (w : World Geo) :
  latlong_to_pixelXY lat1 lon1 MAXLEVEL = (pixelX1, pixelY1) ->
  latlong_to_pixelXY lat2 lon2 MAXLEVEL = (pixelX2, pixelY2) ->
  Z.abs (pixelX1 - pixelX2) <= 1 \/ Z.abs (pixelY1 - pixelY2) <= 1 ->
  max_resolution_imagery_retrieval self lat1 lon1 lat2 lon2 w
  = (Ok false,
     mkWorld (requests w) (null_png w) (files w) (NoImagery :: stdout w)).
Proof.
  intros H1 H2 Hspan.
  rewrite retrieval_is_finest_level_attempt.
  unfold finest_level_attempt. rewrite H1, H2.
  assert (Hb : (Z.abs (pixelX1 - pixelX2) <=? 1)
               || (Z.abs (pixelY1 - pixelY2) <=? 1) = true).
  { apply orb_true_iff. destruct Hspan as [H | H]; [left | right];
      apply Z.leb_le; exact H. }
  rewrite Hb. reflexivity.
Qed.

(** C1: when the two corners of the box, converted to pixels at MAXLEVEL,
    are at most one pixel apart in x or in y, the retrieval returns [False]
    after printing that there is no imagery for the box; no URL was opened
    and no file written: the world is otherwise unchanged. *)
Theorem collapsed_span_fails_without_fetch (lat1 lon1 lat2 lon2 : Geo)
    (pixelX1 pixelY1 pixelX2 pixelY2 : Z) (w : World Geo) :
  latlong_to_pixelXY lat1 lon1 MAXLEVEL = (pixelX1, pixelY1) ->
  latlong_to_pixelXY lat2 lon2 MAXLEVEL = (pixelX2, pixelY2) ->
  Z.abs (pixelX1 - pixelX2) <= 1 \/ Z.abs (pixelY1 - pixelY2) <= 1 ->
  max_resolution_imagery_retrieval self lat1 lon1 lat2 lon2 w
  = (Ok false,
     mkWorld (requests w) (null_png w) (files w) (NoImagery :: stdout w)).
Proof.
  intros H1 H2 Hspan.
  exact (retrieval_collapsed lat1 lon1 lat2 lon2 _ _ _ _ w H1 H2 Hspan).
Qed.

End LevelSearch.

Lemma collapsed_span_fails_without_fetch_witness :
  max_resolution_imagery_retrieval
    (TS := Scenario.pixel_grid) (IM := Scenario.offline)
    Scenario.retrieval 40 70 41 900 Scenario.fresh
  = (Ok false, mkWorld [] None [] [NoImagery]).
Proof.
  apply (collapsed_span_fails_without_fetch
           (TS := Scenario.pixel_grid) (IM := Scenario.offline)
           Scenario.retrieval 40 70 41 900 70 40 900 41 Scenario.fresh).
  - reflexivity.
  - reflexivity.
  - right. simpl. lia.
Defined.

(** C7: the level-descending loop is a single attempt at MAXLEVEL: the
    retrieval does exactly what the loop-free attempt at the finest level
    does, and it does not depend on what the projection yields at any level
    below MAXLEVEL. *)
Theorem level_loop_is_finest_level_attempt {Geo : Type}
    (TS TS' : TileSystemFloat Geo) (IM : Imagery)
    (self : AerialImageRetrieval Geo) (lat1 lon1 lat2 lon2 : Geo)
    (w : World Geo) :
  (forall lat lon,
      latlong_to_pixelXY (TileSystemFloat := TS') lat lon MAXLEVEL
      = latlong_to_pixelXY (TileSystemFloat := TS) lat lon MAXLEVEL) ->
  (forall x, float_str (TileSystemFloat := TS') x
             = float_str (TileSystemFloat := TS) x) ->
  max_resolution_imagery_retrieval (TS := TS) self lat1 lon1 lat2 lon2 w
  = finest_level_attempt (TS := TS) self lat1 lon1 lat2 lon2 w
  /\ max_resolution_imagery_retrieval (TS := TS') self lat1 lon1 lat2 lon2 w
     = max_resolution_imagery_retrieval (TS := TS) self lat1 lon1 lat2 lon2 w.
Proof.
  intros Hfinest Hstr. split.
  - apply retrieval_is_finest_level_attempt.
  - rewrite !retrieval_is_finest_level_attempt.
    unfold finest_level_attempt. rewrite !Hfinest, !Hstr. reflexivity.
Qed.

Lemma level_loop_is_finest_level_attempt_witness :
  max_resolution_imagery_retrieval
    (TS := Scenario.pixel_grid) (IM := Scenario.coverage Scenario.red)
    Scenario.retrieval 0 0 300 600 Scenario.fresh
  = finest_level_attempt
      (TS := Scenario.pixel_grid) (IM := Scenario.coverage Scenario.red)
      Scenario.retrieval 0 0 300 600 Scenario.fresh
  /\ max_resolution_imagery_retrieval
       (TS := Scenario.pixel_grid_finest_only)
       (IM := Scenario.coverage Scenario.red)
       Scenario.retrieval 0 0 300 600 Scenario.fresh
     = max_resolution_imagery_retrieval
         (TS := Scenario.pixel_grid) (IM := Scenario.coverage Scenario.red)
         Scenario.retrieval 0 0 300 600 Scenario.fresh.
Proof.
  apply (level_loop_is_finest_level_attempt
           Scenario.pixel_grid Scenario.pixel_grid_finest_only
           (Scenario.coverage Scenario.red)
           Scenario.retrieval 0 0 300 600 Scenario.fresh).
  - intros lat lon. reflexivity.
  - intros x. reflexivity.
Defined.

(** ** The tile loops against their world-free description *)

Section TileLoops.

Context {Geo : Type} {IM : Imagery}.

Lemma fetched_only_refl (P : string -> Prop) (w : World Geo) :
  fetched_only P w w.
Proof.
  repeat split. exists []. split; [reflexivity | constructor].
Qed.

Lemma fetched_only_trans (P : string -> Prop) (w1 w2 w3 : World Geo) :
  fetched_only P w1 w2 -> fetched_only P w2 w3 -> fetched_only P w1 w3.
Proof.
  intros (Hf1 & Hs1 & new1 & Hr1 & Hall1) (Hf2 & Hs2 & new2 & Hr2 & Hall2).
  split; [congruence |]. split; [congruence |].
  exists (new2 ++ new1). split.
  - rewrite Hr2, Hr1. apply app_assoc.
  - apply Forall_app. split; assumption.
Qed.

Lemma fetched_only_weaken (P Q : string -> Prop) (w w' : World Geo) :
  (forall url, P url -> Q url) -> fetched_only P w w' -> fetched_only Q w w'.
Proof.
  intros HPQ (Hf & Hs & new & Hr & Hall).
  split; [assumption |]. split; [assumption |].
  exists new. split; [assumption |].
  eapply Forall_impl; [| exact Hall]. exact HPQ.
Qed.

(** Opening a tile URL leaves the files and the placeholder alone. *)
Lemma download_image_spec (quadkey : string) (w : World Geo) :
  exists w',
    download_image quadkey w
    = (match urlopen (BASEURL_format quadkey) with
       | Some image => Ok image
       | None => Raise URLError
       end, w')
    /\ null_png w' = null_png w /\ files w' = files w
    /\ stdout w' = stdout w
    /\ requests w' = BASEURL_format quadkey :: requests w.
Proof.
  unfold download_image, open_url.
  destruct (urlopen (BASEURL_format quadkey));
    eexists; repeat split; reflexivity.
Qed.

(** The validity check compares with the placeholder of the world it starts
    in, and raises when that placeholder cannot be fetched. *)
Lemma is_valid_image_spec (image : Image) (w : World Geo) :
  exists w',
    is_valid_image image w
    = (match sentinel w with
       | Some null => Ok (negb (image_eq image null))
       | None => Raise URLError
       end, w')
    /\ fetched_only (fun url => url = BASEURL_format NULLKEY) w w'
    /\ stdout w' = stdout w.
Proof.
  unfold is_valid_image, bind, null_png_exists, sentinel.
  destruct (null_png w) as [null |] eqn:Hnull; simpl.
  - unfold open_null_png. rewrite Hnull.
    exists w. split; [reflexivity |]. split; [| reflexivity].
    apply fetched_only_refl.
  - unfold download_image, open_url.
    destruct (urlopen (BASEURL_format NULLKEY)) as [null |] eqn:Hurl; simpl.
    + eexists. split; [reflexivity |]. split; [| reflexivity].
      split; [reflexivity |]. split.
      * unfold sentinel. simpl. rewrite Hnull. symmetry. exact Hurl.
      * exists [BASEURL_format NULLKEY]. split; [reflexivity |].
        constructor; [reflexivity | constructor].
    + eexists. split; [reflexivity |]. split; [| reflexivity].
      split; [reflexivity |]. split.
      * unfold sentinel. simpl. rewrite Hnull. reflexivity.
      * exists [BASEURL_format NULLKEY]. split; [reflexivity |].
        constructor; [reflexivity | constructor].
Qed.

Lemma download_image_fetched_only (quadkey : string) (w w' : World Geo)
    (r : Res Image) :
  download_image quadkey w = (r, w') ->
  fetched_only (fun url => url = BASEURL_format quadkey) w w'
  /\ stdout w' = stdout w.
Proof.
  intros Hrun.
  destruct (download_image_spec quadkey w) as (w1 & Hw1 & Hn & Hf & Hs & Hr).
  rewrite Hw1 in Hrun. injection Hrun as _ <-.
  split; [| exact Hs]. split; [exact Hf |]. split.
  - unfold sentinel. rewrite Hn. reflexivity.
  - exists [BASEURL_format quadkey]. split; [exact Hr |].
    constructor; [reflexivity | constructor].
Qed.

(** The inner loop ends as [row_outcome] says; it opens only the URLs of its
    row and of the placeholder, and prints only when it meets a placeholder
    tile. *)
Lemma fetch_row_spec (level tileY : Z) (tileXs : list Z) :
  forall (imagelist : list Image) (w : World Geo),
  exists w',
    fetch_row level tileY tileXs imagelist w
    = (loop_result (row_outcome (sentinel w) level tileY tileXs imagelist), w')
    /\ fetched_only (row_url level tileY tileXs) w w'
    /\ stdout w'
       = loop_stdout level
           (row_outcome (sentinel w) level tileY tileXs imagelist) (stdout w).
Proof.
  induction tileXs as [| tileX rest IH]; intros imagelist w.
  - exists w. split; [reflexivity |]. split; [| reflexivity].
    apply fetched_only_refl.
  - cbn [fetch_row row_outcome]. unfold bind at 1.
    destruct (download_image (tileXY_to_quadkey tileX tileY level) w)
      as [r1 w1] eqn:Hdl.
    pose proof (download_image_fetched_only _ _ _ _ Hdl) as [Hfo1 Hout1].
    assert (Hfo1' : fetched_only (row_url level tileY (tileX :: rest)) w w1).
    { eapply fetched_only_weaken; [| exact Hfo1].
      intros url ->. right. exists tileX. split; [left |]; reflexivity. }
    destruct (download_image_spec (tileXY_to_quadkey tileX tileY level) w)
      as (w1' & Hw1 & _).
    rewrite Hdl in Hw1. injection Hw1 as Hr1 _.
    unfold tile_at.
    destruct (urlopen (BASEURL_format (tileXY_to_quadkey tileX tileY level)))
      as [image |]; subst r1.
    2:{ exists w1. split; [reflexivity |]. split; [exact Hfo1' | exact Hout1]. }
    unfold bind at 1.
    destruct (is_valid_image_spec image w1) as (w2 & Hw2 & Hfo2 & Hout2).
    rewrite Hw2.
    assert (Hsent : sentinel w1 = sentinel w) by apply Hfo1.
    assert (Hfo2' : fetched_only (row_url level tileY (tileX :: rest)) w w2).
    { eapply fetched_only_trans; [exact Hfo1' |].
      eapply fetched_only_weaken; [| exact Hfo2].
      intros url ->. left. reflexivity. }
    rewrite Hsent.
    destruct (sentinel w) as [null |] eqn:Hs.
    2:{ exists w2. split; [reflexivity |]. split; [exact Hfo2' |].
        simpl. congruence. }
    destruct (image_eq image null); simpl.
    + eexists. split; [reflexivity |]. split.
      * destruct Hfo2' as (Hf & Hse & Hreq).
        split; [exact Hf |]. split; [exact Hse | exact Hreq].
      * simpl. congruence.
    + destruct (IH (imagelist ++ [image]) w2) as (w3 & Hw3 & Hfo3 & Hout3).
      assert (Hs2 : sentinel w2 = Some null).
      { destruct Hfo2' as (_ & Hse & _). congruence. }
      rewrite Hs2 in Hw3, Hout3.
      exists w3. split; [exact Hw3 |]. split.
      * eapply fetched_only_trans; [exact Hfo2' |].
        eapply fetched_only_weaken; [| exact Hfo3].
        intros url [-> | (tx & Hin & ->)]; [left; reflexivity |].
        right. exists tx. split; [right; exact Hin | reflexivity].
      * rewrite Hout3. destruct (row_outcome _ _ _ _ _); simpl; congruence.
Qed.

Lemma Image_new_row (n : nat) (w : World Geo) :
  Image_new (Z.of_nat n * TILESIZE) TILESIZE w
  = (Ok (blank (Z.of_nat n * TILESIZE) TILESIZE), w).
Proof.
  unfold Image_new.
  assert (H : (Z.of_nat n * TILESIZE <? 0) || (TILESIZE <? 0) = false).
  { apply orb_false_iff. unfold TILESIZE. split; apply Z.ltb_ge; lia. }
  rewrite H. reflexivity.
Qed.

(** The outer loop ends as [rows_outcome] says, with the same frame. *)
Lemma fetch_rows_spec (level tileX1 tileX2 tileY1 : Z) (tileYs : list Z) :
  forall (result : Image) (w : World Geo),
  exists w',
    fetch_rows level tileX1 tileX2 tileY1 tileYs result w
    = (loop_result
         (rows_outcome (sentinel w) level tileX1 tileX2 tileY1 tileYs result),
       w')
    /\ fetched_only (grid_url level tileX1 tileX2 tileYs) w w'
    /\ stdout w'
       = loop_stdout level
           (rows_outcome (sentinel w) level tileX1 tileX2 tileY1 tileYs result)
           (stdout w).
Proof.
  induction tileYs as [| tileY rest IH]; intros result w.
  - exists w. split; [reflexivity |]. split; [| reflexivity].
    apply fetched_only_refl.
  - cbn [fetch_rows rows_outcome]. unfold bind at 1.
    destruct (fetch_row_spec level tileY (range tileX1 (tileX2 + 1)) [] w)
      as (w1 & Hw1 & Hfo1 & Hout1).
    rewrite Hw1.
    assert (Hfo1' : fetched_only (grid_url level tileX1 tileX2 (tileY :: rest))
                                 w w1).
    { eapply fetched_only_weaken; [| exact Hfo1].
      intros url Hurl. exists tileY. split; [left; reflexivity | exact Hurl]. }
    destruct (row_outcome (sentinel w) level tileY
                          (range tileX1 (tileX2 + 1)) [])
      as [imagelist | tx ty | e]; simpl loop_result; cbv iota.
    + unfold bind at 1. rewrite Image_new_row.
      destruct (IH (paste result (row_buffer imagelist) 0
                          ((tileY - tileY1) * TILESIZE)) w1)
        as (w2 & Hw2 & Hfo2 & Hout2).
      assert (Hs1 : sentinel w1 = sentinel w) by apply Hfo1.
      rewrite Hs1 in Hw2, Hout2.
      exists w2. split; [exact Hw2 |]. split.
      * eapply fetched_only_trans; [exact Hfo1' |].
        eapply fetched_only_weaken; [| exact Hfo2].
        intros url (ty & Hin & Hurl). exists ty.
        split; [right; exact Hin | exact Hurl].
      * rewrite Hout2. simpl in Hout1. rewrite Hout1. reflexivity.
    + exists w1. split; [reflexivity |]. split; [exact Hfo1' | exact Hout1].
    + exists w1. split; [reflexivity |]. split; [exact Hfo1' | exact Hout1].
Qed.

End TileLoops.

(** ** The world-free description, case by case *)

Section Outcomes.

Context {IM : Imagery}.

(** A row that runs to its end has fetched every tile of the row, none of
    them the placeholder, and has collected their images in order. *)
Lemma row_outcome_done (s : option Image) (level tileY : Z)
    (tileXs : list Z) :
  forall imagelist images,
    row_outcome s level tileY tileXs imagelist = Done images ->
    images = imagelist ++ map (tile_image level tileY) tileXs
    /\ forall tileX, In tileX tileXs -> ~ unavailable s level tileX tileY.
Proof.
  induction tileXs as [| tileX rest IH]; intros imagelist images Hdone.
  - simpl in Hdone. injection Hdone as <-. split.
    + simpl. rewrite app_nil_r. reflexivity.
    + intros tx [].
  - cbn [row_outcome] in Hdone.
    destruct (tile_at level tileX tileY) as [image |] eqn:Htile;
      [| discriminate].
    destruct s as [null |]; [| discriminate].
    destruct (image_eq image null) eqn:Heq; [discriminate |].
    apply IH in Hdone. destruct Hdone as [-> Hrest]. split.
    + rewrite <- app_assoc. simpl. unfold tile_image at 2.
      rewrite Htile. reflexivity.
    + intros tx [<- | Hin].
      * unfold unavailable. rewrite Htile, Heq. discriminate.
      * apply Hrest. exact Hin.
Qed.

(** A row stops only at one of its own tiles, one that was fetched and
    equals the placeholder; it raises only [URLError]. *)
Lemma row_outcome_stops (s : option Image) (level tileY : Z)
    (tileXs : list Z) :
  forall imagelist,
    match row_outcome s level tileY tileXs imagelist with
    | Done _ => True
    | Invalid tileX tileY' =>
        In tileX tileXs /\ tileY' = tileY /\ unavailable s level tileX tileY
    | Failed e => e = URLError
    end.
Proof.
  induction tileXs as [| tileX rest IH]; intros imagelist.
  - exact I.
  - cbn [row_outcome].
    destruct (tile_at level tileX tileY) as [image |] eqn:Htile;
      [| reflexivity].
    destruct s as [null |]; [| reflexivity].
    destruct (image_eq image null) eqn:Heq.
    + split; [left; reflexivity |]. split; [reflexivity |].
      unfold unavailable. rewrite Htile. exact Heq.
    + specialize (IH (imagelist ++ [image])).
      destruct (row_outcome _ _ _ _ _); try exact IH.
      destruct IH as (Hin & Hty & Hs). split; [right; exact Hin |].
      split; assumption.
Qed.

(** When the placeholder and every tile of the row can be fetched, no
    exception escapes from the row. *)
Lemma row_outcome_served (s : option Image) (level tileY : Z)
    (tileXs : list Z) :
  s <> None ->
  (forall tileX, In tileX tileXs -> tile_at level tileX tileY <> None) ->
  forall imagelist e,
    row_outcome s level tileY tileXs imagelist <> Failed e.
Proof.
  intros Hs. induction tileXs as [| tileX rest IH]; intros Hall imagelist e.
  - discriminate.
  - cbn [row_outcome].
    destruct (tile_at level tileX tileY) as [image |] eqn:Htile.
    2:{ exfalso. apply (Hall tileX); [left; reflexivity | exact Htile]. }
    destruct s as [null |]; [| congruence].
    destruct (image_eq image null); [discriminate |].
    apply IH. intros tx Hin. apply Hall. right. exact Hin.
Qed.

(** Rows that run to their end have composed the raster [compose_rows]
    describes, from tiles that were all fetched and valid. *)
Lemma rows_outcome_done (s : option Image) (level tileX1 tileX2 tileY1 : Z)
    (tileYs : list Z) :
  forall result raster,
    rows_outcome s level tileX1 tileX2 tileY1 tileYs result = Done raster ->
    raster = compose_rows level tileX1 tileX2 tileY1 tileYs result
    /\ forall tileX tileY,
         In tileY tileYs -> In tileX (range tileX1 (tileX2 + 1)) ->
         ~ unavailable s level tileX tileY.
Proof.
  induction tileYs as [| tileY rest IH]; intros result raster Hdone.
  - simpl in Hdone. injection Hdone as <-. split; [reflexivity |].
    intros tx ty [].
  - cbn [rows_outcome] in Hdone.
    destruct (row_outcome s level tileY (range tileX1 (tileX2 + 1)) [])
      as [imagelist | |] eqn:Hrow; try discriminate.
    apply row_outcome_done in Hrow. destruct Hrow as [Himgs Hvalid].
    simpl in Himgs. subst imagelist.
    apply IH in Hdone. destruct Hdone as [-> Hrest]. split; [reflexivity |].
    intros tx ty [<- | Hin] Htx.
    + apply Hvalid. exact Htx.
    + apply Hrest; assumption.
Qed.

Lemma rows_outcome_stops (s : option Image) (level tileX1 tileX2 tileY1 : Z)
    (tileYs : list Z) :
  forall result,
    match rows_outcome s level tileX1 tileX2 tileY1 tileYs result with
    | Done _ => True
    | Invalid tileX tileY =>
        In tileX (range tileX1 (tileX2 + 1)) /\ In tileY tileYs
        /\ unavailable s level tileX tileY
    | Failed e => e = URLError
    end.
Proof.
  induction tileYs as [| tileY rest IH]; intros result.
  - exact I.
  - cbn [rows_outcome].
    pose proof (row_outcome_stops s level tileY (range tileX1 (tileX2 + 1)) [])
      as Hrow.
    destruct (row_outcome s level tileY (range tileX1 (tileX2 + 1)) [])
      as [imagelist | tx ty | e].
    + specialize (IH (paste result (row_buffer imagelist) 0
                            ((tileY - tileY1) * TILESIZE))).
      destruct (rows_outcome _ _ _ _ _ _ _); try exact IH.
      destruct IH as (Hx & Hy & Hs). split; [exact Hx |].
      split; [right; exact Hy | exact Hs].
    + destruct Hrow as (Hx & -> & Hs). split; [exact Hx |].
      split; [left; reflexivity | exact Hs].
    + exact Hrow.
Qed.

Lemma rows_outcome_served (s : option Image) (level tileX1 tileX2 tileY1 : Z)
    (tileYs : list Z) :
  s <> None ->
  (forall tileX tileY,
      In tileY tileYs -> In tileX (range tileX1 (tileX2 + 1)) ->
      tile_at level tileX tileY <> None) ->
  forall result e,
    rows_outcome s level tileX1 tileX2 tileY1 tileYs result <> Failed e.
Proof.
  intros Hs. induction tileYs as [| tileY rest IH]; intros Hall result e.
  - discriminate.
  - cbn [rows_outcome].
    pose proof (row_outcome_served s level tileY (range tileX1 (tileX2 + 1)) Hs)
      as Hrow.
    destruct (row_outcome s level tileY (range tileX1 (tileX2 + 1)) [])
      as [imagelist | tx ty | e'] eqn:Hout.
    + apply IH. intros tx ty Hy Hx. apply Hall; [right |]; assumption.
    + discriminate.
    + exfalso. apply (Hrow (fun tx Hx => Hall tx tileY (or_introl eq_refl) Hx)
                           [] e').
      exact Hout.
Qed.


(** A tile that is available was fetched, and so was the placeholder. *)
Lemma available_served (s : option Image) (level tileX tileY : Z) :
  ~ unavailable s level tileX tileY ->
  s <> None /\ tile_at level tileX tileY <> None.
Proof.
  unfold unavailable. intros Hav.
  destruct (tile_at level tileX tileY); [| exfalso; apply Hav; exact I].
  destruct s; [| exfalso; apply Hav; exact I].
  split; discriminate.
Qed.

(** When every tile of the range is available the rows run to their end and
    compose the raster [compose_rows] describes. *)
Lemma rows_outcome_available (s : option Image)
    (level tileX1 tileX2 tileY1 : Z) (tileYs : list Z) (result : Image) :
  s <> None ->
  (forall tileX tileY,
      In tileY tileYs -> In tileX (range tileX1 (tileX2 + 1)) ->
      ~ unavailable s level tileX tileY) ->
  rows_outcome s level tileX1 tileX2 tileY1 tileYs result
  = Done (compose_rows level tileX1 tileX2 tileY1 tileYs result).
Proof.
  intros Hs Hav.
  pose proof (rows_outcome_stops s level tileX1 tileX2 tileY1 tileYs result)
    as Hstops.
  pose proof (rows_outcome_served s level tileX1 tileX2 tileY1 tileYs Hs)
    as Hserved.
  destruct (rows_outcome s level tileX1 tileX2 tileY1 tileYs result)
    as [raster | tx ty | e] eqn:Hout.
  - apply rows_outcome_done in Hout. destruct Hout as [-> _]. reflexivity.
  - destruct Hstops as (Hx & Hy & Hun). exfalso.
    apply (Hav tx ty Hy Hx). exact Hun.
  - exfalso. apply (Hserved (fun tx ty Hy Hx =>
                               proj2 (available_served _ _ _ _ (Hav tx ty Hy Hx)))
                            result e).
    exact Hout.
Qed.

End Outcomes.

(** ** One attempt at the finest level, case by case *)

Section Attempt.

Context {Geo : Type} {TS : TileSystemFloat Geo} {IM : Imagery}.
Variable self : AerialImageRetrieval Geo.

(** When the span does not collapse the retrieval allocates the raster,
    runs the tile loops and, if they run to their end, saves the raster. *)
Lemma retrieval_spec (lat1 lon1 lat2 lon2 : Geo)
    (pixelX1 pixelY1 pixelX2 pixelY2 tileX1 tileY1 tileX2 tileY2 : Z)
    (w : World Geo) :
  latlong_to_pixelXY lat1 lon1 MAXLEVEL = (pixelX1, pixelY1) ->
  latlong_to_pixelXY lat2 lon2 MAXLEVEL = (pixelX2, pixelY2) ->
  1 < Z.abs (pixelX1 - pixelX2) -> 1 < Z.abs (pixelY1 - pixelY2) ->
  pixelXY_to_tileXY pixelX1 pixelY1 = (tileX1, tileY1) ->
  pixelXY_to_tileXY pixelX2 pixelY2 = (tileX2, tileY2) ->
  let W := (tileX2 - tileX1 + 1) * TILESIZE in
  let H := (tileY2 - tileY1 + 1) * TILESIZE in
  if (W <? 0) || (H <? 0)
  then max_resolution_imagery_retrieval self lat1 lon1 lat2 lon2 w
       = (Raise ValueError, w)
  else
    exists w1,
      fetched_only
        (grid_url MAXLEVEL tileX1 tileX2 (range tileY1 (tileY2 + 1))) w w1
      /\ match rows_outcome (sentinel w) MAXLEVEL tileX1 tileX2 tileY1
                 (range tileY1 (tileY2 + 1)) (blank W H) with
         | Done raster =>
             stdout w1 = stdout w
             /\ max_resolution_imagery_retrieval self lat1 lon1 lat2 lon2 w
                = if (width raster =? 0) || (height raster =? 0)
                  then (Raise ValueError, w1)
                  else (Ok true,
                        mkWorld (requests w1) (null_png w1)
                          ((mosaic_filename self lat1 lon1, raster) :: files w1)
                          (ImageSaved (mosaic_filename self lat1 lon1)
                             :: stdout w1))
         | Invalid tileX tileY =>
             stdout w1 = NoTile MAXLEVEL tileX tileY :: stdout w
             /\ max_resolution_imagery_retrieval self lat1 lon1 lat2 lon2 w
                = (Ok false, w1)
         | Failed e =>
             stdout w1 = stdout w
             /\ max_resolution_imagery_retrieval self lat1 lon1 lat2 lon2 w
                = (Raise e, w1)
         end.
Proof.
  intros Hp1 Hp2 Hx Hy Ht1 Ht2 W H.
  pose proof (retrieval_is_finest_level_attempt self lat1 lon1 lat2 lon2 w)
    as Hrun.
  unfold finest_level_attempt in Hrun. rewrite Hp1, Hp2 in Hrun.
  assert (Hb : (Z.abs (pixelX1 - pixelX2) <=? 1)
               || (Z.abs (pixelY1 - pixelY2) <=? 1) = false).
  { apply orb_false_iff. split; apply Z.leb_gt; assumption. }
  rewrite Hb, Ht1, Ht2 in Hrun. fold W H in Hrun.
  unfold bind at 1 in Hrun. unfold Image_new in Hrun.
  destruct ((W <? 0) || (H <? 0)); [exact Hrun |].
  unfold ret at 1 in Hrun. unfold bind at 1 in Hrun.
  destruct (fetch_rows_spec MAXLEVEL tileX1 tileX2 tileY1
              (range tileY1 (tileY2 + 1)) (blank W H) w)
    as (w1 & Hw1 & Hfo & Hout).
  exists w1. split; [exact Hfo |]. rewrite Hw1 in Hrun.
  destruct (rows_outcome (sentinel w) MAXLEVEL tileX1 tileX2 tileY1
              (range tileY1 (tileY2 + 1)) (blank W H))
    as [raster | tx ty | e]; simpl in Hout, Hrun.
  - split; [exact Hout |]. rewrite Hrun.
    unfold bind at 1. unfold Image_save. fold (mosaic_filename self lat1 lon1).
    destruct ((width raster =? 0) || (height raster =? 0)); reflexivity.
  - split; [exact Hout | exact Hrun].
  - split; [exact Hout | exact Hrun].
Qed.

End Attempt.

(** ** Rasters *)

Section Rasters.

Lemma range_length (a b : Z) : List.length (range a b) = Z.to_nat (b - a).
Proof.
  unfold range. rewrite length_map, length_seq. reflexivity.
Qed.

Lemma range_In (a b x : Z) : In x (range a b) <-> a <= x < b.
Proof.
  unfold range. rewrite in_map_iff. split.
  - intros (i & <- & Hin). apply in_seq in Hin. lia.
  - intros Hx. exists (Z.to_nat (x - a)). split; [lia |].
    apply in_seq. lia.
Qed.

Lemma range_nth (a b d : Z) (k : nat) :
  (k < Z.to_nat (b - a))%nat -> nth k (range a b) d = a + Z.of_nat k.
Proof.
  intros Hk. unfold range.
  rewrite (nth_indep _ d (a + Z.of_nat 0)).
  - rewrite (map_nth (fun i => a + Z.of_nat i)). rewrite seq_nth by exact Hk.
    reflexivity.
  - rewrite length_map, length_seq. exact Hk.
Qed.

Lemma paste_width (dst src : Image) (x0 y0 : Z) :
  width (paste dst src x0 y0) = width dst.
Proof. reflexivity. Qed.

Lemma paste_height (dst src : Image) (x0 y0 : Z) :
  height (paste dst src x0 y0) = height dst.
Proof. reflexivity. Qed.

(** Inside the pasted box the pixels are those of the source. *)
Lemma paste_inside (dst src : Image) (x0 y0 u v : Z) :
  0 <= u < width src -> 0 <= v < height src ->
  getpixel (paste dst src x0 y0) (x0 + u) (y0 + v) = getpixel src u v.
Proof.
  intros Hu Hv. simpl.
  replace (x0 + u - x0) with u by lia.
  replace (y0 + v - y0) with v by lia.
  assert (Hb : (0 <=? u) && (u <? width src) && (0 <=? v)
               && (v <? height src) = true).
  { repeat (apply andb_true_iff; split);
      first [apply Z.leb_le | apply Z.ltb_lt]; lia. }
  rewrite Hb. reflexivity.
Qed.

(** Outside the pasted box the pixels are those of the destination. *)
Lemma paste_outside (dst src : Image) (x0 y0 x y : Z) :
  ~ (x0 <= x < x0 + width src /\ y0 <= y < y0 + height src) ->
  getpixel (paste dst src x0 y0) x y = getpixel dst x y.
Proof.
  intros Hout. simpl.
  destruct ((0 <=? x - x0) && (x - x0 <? width src) && (0 <=? y - y0)
            && (y - y0 <? height src)) eqn:Hb; [| reflexivity].
  exfalso. apply Hout.
  repeat (apply andb_true_iff in Hb; destruct Hb as [Hb ?]).
  apply Z.leb_le in Hb.
  repeat match goal with
         | H : (_ <=? _) = true |- _ => apply Z.leb_le in H
         | H : (_ <? _) = true |- _ => apply Z.ltb_lt in H
         end.
  lia.
Qed.

Lemma paste_tiles_width (imagelist : list Image) :
  forall i row_image,
    width (paste_tiles i imagelist row_image) = width row_image.
Proof.
  induction imagelist as [| image rest IH]; intros i row_image.
  - reflexivity.
  - simpl. rewrite IH. reflexivity.
Qed.

Lemma paste_tiles_height (imagelist : list Image) :
  forall i row_image,
    height (paste_tiles i imagelist row_image) = height row_image.
Proof.
  induction imagelist as [| image rest IH]; intros i row_image.
  - reflexivity.
  - simpl. rewrite IH. reflexivity.
Qed.

(** Left of the first tile still to paste, the row buffer is not touched. *)
Lemma paste_tiles_left (imagelist : list Image) :
  forall i row_image x y,
    Forall tile_sized imagelist -> x < i * 256 ->
    getpixel (paste_tiles i imagelist row_image) x y = getpixel row_image x y.
Proof.
  induction imagelist as [| image rest IH]; intros i row_image x y Hsz Hx.
  - reflexivity.
  - simpl. inversion Hsz as [| ? ? [Hw Hh] Hrest]; subst.
    rewrite IH by (try assumption; lia).
    apply paste_outside. unfold TILESIZE. lia.
Qed.

(** The [k]-th image of the list lands [k] tiles to the right of index
    [i]. *)
Lemma paste_tiles_inside (imagelist : list Image) :
  forall i row_image (k : nat) u v d,
    Forall tile_sized imagelist -> (k < List.length imagelist)%nat ->
    0 <= u < 256 -> 0 <= v < 256 ->
    getpixel (paste_tiles i imagelist row_image)
             ((i + Z.of_nat k) * 256 + u) v
    = getpixel (nth k imagelist d) u v.
Proof.
  induction imagelist as [| image rest IH];
    intros i row_image k u v d Hsz Hk Hu Hv.
  - simpl in Hk. lia.
  - inversion Hsz as [| ? ? [Hw Hh] Hrest]; subst.
    destruct k as [| k].
    + simpl. rewrite paste_tiles_left by (try assumption; lia).
      replace ((i + 0) * 256 + u) with (i * TILESIZE + u)
        by (unfold TILESIZE; lia).
      replace v with (0 + v) at 1 by lia.
      apply paste_inside; lia.
    + cbn [paste_tiles nth].
      replace ((i + Z.of_nat (S k)) * 256 + u)
        with ((i + 1 + Z.of_nat k) * 256 + u) by lia.
      apply IH; try assumption. simpl in Hk. lia.
Qed.

Lemma row_buffer_width (imagelist : list Image) :
  width (row_buffer imagelist) = Z.of_nat (List.length imagelist) * 256.
Proof.
  unfold row_buffer. rewrite paste_tiles_width. reflexivity.
Qed.

Lemma row_buffer_height (imagelist : list Image) :
  height (row_buffer imagelist) = 256.
Proof.
  unfold row_buffer. rewrite paste_tiles_height. reflexivity.
Qed.

Lemma row_buffer_inside (imagelist : list Image) (k : nat) (u v : Z)
    (d : Image) :
  Forall tile_sized imagelist -> (k < List.length imagelist)%nat ->
  0 <= u < 256 -> 0 <= v < 256 ->
  getpixel (row_buffer imagelist) (Z.of_nat k * 256 + u) v
  = getpixel (nth k imagelist d) u v.
Proof.
  intros Hsz Hk Hu Hv. unfold row_buffer.
  replace (Z.of_nat k * 256 + u) with ((0 + Z.of_nat k) * 256 + u) by lia.
  apply paste_tiles_inside; assumption.
Qed.

End Rasters.

(** ** The composed raster, pixel by pixel *)

Section Composition.

Context {IM : Imagery}.
Variables level tileX1 tileX2 tileY1 : Z.

Lemma compose_rows_cons (tileY : Z) (rest : list Z) (result : Image) :
  compose_rows level tileX1 tileX2 tileY1 (tileY :: rest) result
  = compose_rows level tileX1 tileX2 tileY1 rest
      (paste result
         (row_buffer (map (tile_image level tileY) (range tileX1 (tileX2 + 1))))
         0 ((tileY - tileY1) * TILESIZE)).
Proof. reflexivity. Qed.

Lemma compose_rows_width (tileYs : list Z) :
  forall result,
    width (compose_rows level tileX1 tileX2 tileY1 tileYs result)
    = width result.
Proof.
  induction tileYs as [| tileY rest IH]; intros result.
  - reflexivity.
  - rewrite compose_rows_cons, IH. reflexivity.
Qed.

Lemma compose_rows_height (tileYs : list Z) :
  forall result,
    height (compose_rows level tileX1 tileX2 tileY1 tileYs result)
    = height result.
Proof.
  induction tileYs as [| tileY rest IH]; intros result.
  - reflexivity.
  - rewrite compose_rows_cons, IH. reflexivity.
Qed.

(** A pixel row that belongs to none of the tile rows is not touched. *)
Lemma compose_rows_outside (tileYs : list Z) :
  forall result x y,
    (forall tileY, In tileY tileYs ->
                   ~ ((tileY - tileY1) * 256 <= y
                      < (tileY - tileY1) * 256 + 256)) ->
    getpixel (compose_rows level tileX1 tileX2 tileY1 tileYs result) x y
    = getpixel result x y.
Proof.
  induction tileYs as [| tileY rest IH]; intros result x y Hout.
  - reflexivity.
  - rewrite compose_rows_cons, IH.
    + apply paste_outside. rewrite row_buffer_height. unfold TILESIZE.
      intros [_ Hy]. apply (Hout tileY); [left; reflexivity | exact Hy].
    + intros ty Hin. apply Hout. right. exact Hin.
Qed.

(** The tile in column [tileX1 + k] of a row of the range lands [k] tiles
    to the right and as many tiles down as its row is below [tileY1]. *)
Lemma compose_rows_inside (tileYs : list Z) :
  forall result tileY (k : nat) u v,
    In tileY tileYs ->
    (forall tileX, In tileX (range tileX1 (tileX2 + 1)) ->
                   tile_sized (tile_image level tileY tileX)) ->
    (k < Z.to_nat (tileX2 + 1 - tileX1))%nat ->
    0 <= u < 256 -> 0 <= v < 256 ->
    getpixel (compose_rows level tileX1 tileX2 tileY1 tileYs result)
             (Z.of_nat k * 256 + u) ((tileY - tileY1) * 256 + v)
    = getpixel (tile_image level tileY (tileX1 + Z.of_nat k)) u v.
Proof.
  induction tileYs as [| t rest IH];
    intros result tileY k u v Hin Hsz Hk Hu Hv.
  - destruct Hin.
  - rewrite compose_rows_cons.
    destruct (in_dec Z.eq_dec tileY rest) as [Hrest | Hrest].
    + apply IH; assumption.
    + destruct Hin as [-> | Hin]; [| contradiction].
      rewrite compose_rows_outside.
      2:{ intros ty Hty Hband. apply Hrest.
          assert (ty = tileY) by lia. subst ty. exact Hty. }
      set (xs := range tileX1 (tileX2 + 1)).
      assert (Hlen : List.length (map (tile_image level tileY) xs)
                     = Z.to_nat (tileX2 + 1 - tileX1)).
      { rewrite length_map. apply range_length. }
      replace (Z.of_nat k * 256 + u) with (0 + (Z.of_nat k * 256 + u)) by lia.
      replace ((tileY - tileY1) * 256 + v)
        with ((tileY - tileY1) * TILESIZE + v) by (unfold TILESIZE; lia).
      rewrite paste_inside.
      * rewrite (row_buffer_inside _ k u v (tile_image level tileY 0)).
        -- rewrite (map_nth (tile_image level tileY)). unfold xs.
           rewrite range_nth by exact Hk. reflexivity.
        -- apply Forall_forall. intros image Himg.
           apply in_map_iff in Himg. destruct Himg as (tx & <- & Htx).
           apply Hsz. exact Htx.
        -- rewrite Hlen. exact Hk.
        -- exact Hu.
        -- exact Hv.
      * rewrite row_buffer_width, Hlen. lia.
      * rewrite row_buffer_height. exact Hv.
Qed.

End Composition.

(** ** The direct placement, pixel by pixel *)

Section DirectPlacement.

Context {IM : Imagery}.
Variables level tileX1 tileX2 tileY1 : Z.

Lemma place_row_cons (tileY tileX : Z) (rest : list Z) (result : Image) :
  place_row level tileX1 tileY1 tileY (tileX :: rest) result
  = place_row level tileX1 tileY1 tileY rest
      (paste result (tile_image level tileY tileX)
             ((tileX - tileX1) * 256) ((tileY - tileY1) * 256)).
Proof. reflexivity. Qed.

Lemma place_row_width (tileY : Z) (tileXs : list Z) :
  forall result,
    width (place_row level tileX1 tileY1 tileY tileXs result) = width result.
Proof.
  induction tileXs as [| tileX rest IH]; intros result.
  - reflexivity.
  - rewrite place_row_cons, IH. reflexivity.
Qed.

Lemma place_row_height (tileY : Z) (tileXs : list Z) :
  forall result,
    height (place_row level tileX1 tileY1 tileY tileXs result) = height result.
Proof.
  induction tileXs as [| tileX rest IH]; intros result.
  - reflexivity.
  - rewrite place_row_cons, IH. reflexivity.
Qed.

Lemma place_row_outside (tileY : Z) (tileXs : list Z) :
  forall result x y,
    (forall tileX, In tileX tileXs ->
                   tile_sized (tile_image level tileY tileX)) ->
    (forall tileX, In tileX tileXs ->
                   ~ ((tileX - tileX1) * 256 <= x < (tileX - tileX1) * 256 + 256
                      /\ (tileY - tileY1) * 256 <= y
                         < (tileY - tileY1) * 256 + 256)) ->
    getpixel (place_row level tileX1 tileY1 tileY tileXs result) x y
    = getpixel result x y.
Proof.
  induction tileXs as [| tileX rest IH]; intros result x y Hsz Hout.
  - reflexivity.
  - rewrite place_row_cons, IH.
    + apply paste_outside.
      destruct (Hsz tileX (or_introl eq_refl)) as [-> ->].
      apply Hout. left. reflexivity.
    + intros tx Hin. apply Hsz. right. exact Hin.
    + intros tx Hin. apply Hout. right. exact Hin.
Qed.

Lemma place_row_inside (tileY : Z) (tileXs : list Z) :
  forall result tileX u v,
    In tileX tileXs ->
    (forall tx, In tx tileXs -> tile_sized (tile_image level tileY tx)) ->
    0 <= u < 256 -> 0 <= v < 256 ->
    getpixel (place_row level tileX1 tileY1 tileY tileXs result)
             ((tileX - tileX1) * 256 + u) ((tileY - tileY1) * 256 + v)
    = getpixel (tile_image level tileY tileX) u v.
Proof.
  induction tileXs as [| t rest IH]; intros result tileX u v Hin Hsz Hu Hv.
  - destruct Hin.
  - rewrite place_row_cons.
    assert (Hsz' : forall tx, In tx rest ->
                              tile_sized (tile_image level tileY tx)).
    { intros tx Htx. apply Hsz. right. exact Htx. }
    destruct (in_dec Z.eq_dec tileX rest) as [Hrest | Hrest].
    + apply IH; assumption.
    + destruct Hin as [-> | Hin]; [| contradiction].
      rewrite place_row_outside; [| exact Hsz' |].
      * destruct (Hsz tileX (or_introl eq_refl)) as [Hw Hh].
        apply paste_inside; lia.
      * intros tx Htx [Hband _]. apply Hrest.
        assert (tx = tileX) by lia. subst tx. exact Htx.
Qed.

Lemma place_rows_cons (tileY : Z) (rest : list Z) (result : Image) :
  place_rows level tileX1 tileX2 tileY1 (tileY :: rest) result
  = place_rows level tileX1 tileX2 tileY1 rest
      (place_row level tileX1 tileY1 tileY (range tileX1 (tileX2 + 1)) result).
Proof. reflexivity. Qed.

Lemma place_rows_width (tileYs : list Z) :
  forall result,
    width (place_rows level tileX1 tileX2 tileY1 tileYs result) = width result.
Proof.
  induction tileYs as [| tileY rest IH]; intros result.
  - reflexivity.
  - rewrite place_rows_cons, IH. apply place_row_width.
Qed.

Lemma place_rows_height (tileYs : list Z) :
  forall result,
    height (place_rows level tileX1 tileX2 tileY1 tileYs result)
    = height result.
Proof.
  induction tileYs as [| tileY rest IH]; intros result.
  - reflexivity.
  - rewrite place_rows_cons, IH. apply place_row_height.
Qed.

Lemma place_rows_outside (tileYs : list Z) :
  forall result x y,
    (forall tileX tileY,
        In tileY tileYs -> In tileX (range tileX1 (tileX2 + 1)) ->
        tile_sized (tile_image level tileY tileX)) ->
    (forall tileY, In tileY tileYs ->
                   ~ ((tileY - tileY1) * 256 <= y
                      < (tileY - tileY1) * 256 + 256)) ->
    getpixel (place_rows level tileX1 tileX2 tileY1 tileYs result) x y
    = getpixel result x y.
Proof.
  induction tileYs as [| tileY rest IH]; intros result x y Hsz Hout.
  - reflexivity.
  - rewrite place_rows_cons, IH.
    + apply place_row_outside.
      * intros tx Htx. apply Hsz; [left; reflexivity | exact Htx].
      * intros tx Htx [_ Hband].
        apply (Hout tileY); [left; reflexivity | exact Hband].
    + intros tx ty Hty Htx. apply Hsz; [right |]; assumption.
    + intros ty Hty. apply Hout. right. exact Hty.
Qed.

Lemma place_rows_inside (tileYs : list Z) :
  forall result tileX tileY u v,
    In tileY tileYs -> In tileX (range tileX1 (tileX2 + 1)) ->
    (forall tx ty,
        In ty tileYs -> In tx (range tileX1 (tileX2 + 1)) ->
        tile_sized (tile_image level ty tx)) ->
    0 <= u < 256 -> 0 <= v < 256 ->
    getpixel (place_rows level tileX1 tileX2 tileY1 tileYs result)
             ((tileX - tileX1) * 256 + u) ((tileY - tileY1) * 256 + v)
    = getpixel (tile_image level tileY tileX) u v.
Proof.
  induction tileYs as [| t rest IH];
    intros result tileX tileY u v Hy Hx Hsz Hu Hv.
  - destruct Hy.
  - rewrite place_rows_cons.
    assert (Hsz' : forall tx ty,
               In ty rest -> In tx (range tileX1 (tileX2 + 1)) ->
               tile_sized (tile_image level ty tx)).
    { intros tx ty Hty Htx. apply Hsz; [right |]; assumption. }
    destruct (in_dec Z.eq_dec tileY rest) as [Hrest | Hrest].
    + apply IH; assumption.
    + destruct Hy as [-> | Hy]; [| contradiction].
      rewrite place_rows_outside; [| exact Hsz' |].
      * apply place_row_inside; try assumption.
        intros tx Htx. apply Hsz; [left; reflexivity | exact Htx].
      * intros ty Hty Hband. apply Hrest.
        assert (ty = tileY) by lia. subst ty. exact Hty.
Qed.

End DirectPlacement.

(** ** The whole mosaic *)

Section Mosaic.

Context {IM : Imagery}.
Variables level tileX1 tileY1 tileX2 tileY2 : Z.

Hypothesis tiles_sized :
  forall tileX tileY,
    tileX1 <= tileX <= tileX2 -> tileY1 <= tileY <= tileY2 ->
    tile_sized (tile_image level tileY tileX).

Lemma composed_width :
  width (composed level tileX1 tileY1 tileX2 tileY2)
  = (tileX2 - tileX1 + 1) * 256.
Proof. unfold composed. rewrite compose_rows_width. reflexivity. Qed.

Lemma composed_height :
  height (composed level tileX1 tileY1 tileX2 tileY2)
  = (tileY2 - tileY1 + 1) * 256.
Proof. unfold composed. rewrite compose_rows_height. reflexivity. Qed.

Lemma composed_tile_pixel (tileX tileY u v : Z) :
  tileX1 <= tileX <= tileX2 -> tileY1 <= tileY <= tileY2 ->
  0 <= u < 256 -> 0 <= v < 256 ->
  getpixel (composed level tileX1 tileY1 tileX2 tileY2)
           ((tileX - tileX1) * 256 + u) ((tileY - tileY1) * 256 + v)
  = getpixel (tile_image level tileY tileX) u v.
Proof.
  intros Hx Hy Hu Hv. unfold composed.
  replace (tileX - tileX1) with (Z.of_nat (Z.to_nat (tileX - tileX1))) by lia.
  rewrite compose_rows_inside; try assumption.
  - f_equal. f_equal. lia.
  - apply range_In. lia.
  - intros tx Htx. apply range_In in Htx. apply tiles_sized; lia.
  - lia.
Qed.

Lemma direct_placement_tile_pixel (tileX tileY u v : Z) :
  tileX1 <= tileX <= tileX2 -> tileY1 <= tileY <= tileY2 ->
  0 <= u < 256 -> 0 <= v < 256 ->
  getpixel (direct_placement level tileX1 tileY1 tileX2 tileY2)
           ((tileX - tileX1) * 256 + u) ((tileY - tileY1) * 256 + v)
  = getpixel (tile_image level tileY tileX) u v.
Proof.
  intros Hx Hy Hu Hv. unfold direct_placement.
  apply place_rows_inside; try assumption.
  - apply range_In. lia.
  - apply range_In. lia.
  - intros tx ty Hty Htx. apply range_In in Hty, Htx.
    apply tiles_sized; lia.
Qed.

(** Composing row by row through row buffers gives the raster the direct
    placement gives. *)
Lemma composed_is_direct_placement :
  same_raster (composed level tileX1 tileY1 tileX2 tileY2)
              (direct_placement level tileX1 tileY1 tileX2 tileY2).
Proof.
  split; [| split].
  - rewrite composed_width. unfold direct_placement.
    rewrite place_rows_width. reflexivity.
  - rewrite composed_height. unfold direct_placement.
    rewrite place_rows_height. reflexivity.
  - intros x y. rewrite composed_width, composed_height. intros Hx Hy.
    pose proof (Z.div_mod x 256 ltac:(lia)) as Ex.
    pose proof (Z.mod_pos_bound x 256 ltac:(lia)) as Bx.
    pose proof (Z.div_mod y 256 ltac:(lia)) as Ey.
    pose proof (Z.mod_pos_bound y 256 ltac:(lia)) as By.
    remember (tileX1 + x / 256) as tx eqn:Etx.
    remember (tileY1 + y / 256) as ty eqn:Ety.
    remember (x mod 256) as u eqn:Eu.
    remember (y mod 256) as v eqn:Ev.
    assert (Hx' : x = (tx - tileX1) * 256 + u) by lia.
    assert (Hy' : y = (ty - tileY1) * 256 + v) by lia.
    assert (Htx : tileX1 <= tx <= tileX2) by lia.
    assert (Hty : tileY1 <= ty <= tileY2) by lia.
    rewrite Hx', Hy'.
    rewrite composed_tile_pixel, direct_placement_tile_pixel by assumption.
    reflexivity.
Qed.

End Mosaic.

(** ** Successful retrievals *)

Section Success.

Context {Geo : Type} {TS : TileSystemFloat Geo} {IM : Imagery}.
Variable self : AerialImageRetrieval Geo.
Variables lat1 lon1 lat2 lon2 : Geo.
Variables pixelX1 pixelY1 pixelX2 pixelY2 tileX1 tileY1 tileX2 tileY2 : Z.

Hypothesis corner1 :
  latlong_to_pixelXY lat1 lon1 MAXLEVEL = (pixelX1, pixelY1).
Hypothesis corner2 :
  latlong_to_pixelXY lat2 lon2 MAXLEVEL = (pixelX2, pixelY2).
Hypothesis tile1 : pixelXY_to_tileXY pixelX1 pixelY1 = (tileX1, tileY1).
Hypothesis tile2 : pixelXY_to_tileXY pixelX2 pixelY2 = (tileX2, tileY2).

(** A retrieval that returns [True] went through a span that does not
    collapse and a non-empty tile range all of whose tiles were available,
    and it has saved the composed raster. *)
Lemma retrieval_success_inv (w w' : World Geo) :
  max_resolution_imagery_retrieval self lat1 lon1 lat2 lon2 w = (Ok true, w') ->
  1 < Z.abs (pixelX1 - pixelX2) /\ 1 < Z.abs (pixelY1 - pixelY2)
  /\ tileX1 <= tileX2 /\ tileY1 <= tileY2
  /\ (forall tileX tileY,
         tileX1 <= tileX <= tileX2 -> tileY1 <= tileY <= tileY2 ->
         ~ unavailable (sentinel w) MAXLEVEL tileX tileY)
  /\ exists w1,
       fetched_only
         (grid_url MAXLEVEL tileX1 tileX2 (range tileY1 (tileY2 + 1))) w w1
       /\ w' = saved_world self lat1 lon1 tileX1 tileY1 tileX2 tileY2 w w1.
Proof.
  intros Hrun.
  assert (Hspan : 1 < Z.abs (pixelX1 - pixelX2)
                  /\ 1 < Z.abs (pixelY1 - pixelY2)).
  { destruct (Z_lt_le_dec 1 (Z.abs (pixelX1 - pixelX2))) as [Hx | Hx];
      [destruct (Z_lt_le_dec 1 (Z.abs (pixelY1 - pixelY2))) as [Hy | Hy] |].
    - split; assumption.
    - rewrite (retrieval_collapsed self lat1 lon1 lat2 lon2 _ _ _ _ w
                 corner1 corner2 (or_intror Hy)) in Hrun.
      discriminate.
    - rewrite (retrieval_collapsed self lat1 lon1 lat2 lon2 _ _ _ _ w
                 corner1 corner2 (or_introl Hx)) in Hrun.
      discriminate. }
  destruct Hspan as [Hx Hy].
  pose proof (retrieval_spec self lat1 lon1 lat2 lon2 _ _ _ _ _ _ _ _ w
                corner1 corner2 Hx Hy tile1 tile2) as Hspec.
  cbv zeta in Hspec.
  destruct (((tileX2 - tileX1 + 1) * TILESIZE <? 0)
            || ((tileY2 - tileY1 + 1) * TILESIZE <? 0)) eqn:Hneg.
  { rewrite Hspec in Hrun. discriminate. }
  apply orb_false_iff in Hneg. destruct Hneg as [HW HH].
  apply Z.ltb_ge in HW, HH. unfold TILESIZE in HW, HH.
  destruct Hspec as (w1 & Hfo & Hspec).
  destruct (rows_outcome (sentinel w) MAXLEVEL tileX1 tileX2 tileY1
              (range tileY1 (tileY2 + 1)) _) as [raster | tx ty | e] eqn:Hout.
  2:{ destruct Hspec as [_ Hspec]. rewrite Hspec in Hrun. discriminate. }
  2:{ destruct Hspec as [_ Hspec]. rewrite Hspec in Hrun. discriminate. }
  destruct Hspec as [Hstd Hspec]. rewrite Hspec in Hrun.
  apply rows_outcome_done in Hout. destruct Hout as [Hraster Hav].
  fold (composed MAXLEVEL tileX1 tileY1 tileX2 tileY2) in Hraster.
  subst raster.
  rewrite composed_width, composed_height in Hrun.
  destruct (((tileX2 - tileX1 + 1) * 256 =? 0)
            || ((tileY2 - tileY1 + 1) * 256 =? 0)) eqn:Hzero;
    [discriminate |].
  apply orb_false_iff in Hzero. destruct Hzero as [HW0 HH0].
  apply Z.eqb_neq in HW0, HH0.
  split; [exact Hx |]. split; [exact Hy |].
  split; [lia |]. split; [lia |]. split.
  - intros tx ty Htx Hty. apply Hav; apply range_In; lia.
  - exists w1. split; [exact Hfo |].
    injection Hrun as <-. unfold saved_world.
    destruct Hfo as (Hfiles & _). rewrite Hfiles, Hstd. reflexivity.
Qed.

(** When the span does not collapse and every tile of a non-empty range is
    available, the retrieval saves the composed raster and returns
    [True]. *)
Lemma retrieval_succeeds (w : World Geo) :
  1 < Z.abs (pixelX1 - pixelX2) -> 1 < Z.abs (pixelY1 - pixelY2) ->
  tileX1 <= tileX2 -> tileY1 <= tileY2 ->
  (forall tileX tileY,
      tileX1 <= tileX <= tileX2 -> tileY1 <= tileY <= tileY2 ->
      ~ unavailable (sentinel w) MAXLEVEL tileX tileY) ->
  exists w1,
    fetched_only
      (grid_url MAXLEVEL tileX1 tileX2 (range tileY1 (tileY2 + 1))) w w1
    /\ max_resolution_imagery_retrieval self lat1 lon1 lat2 lon2 w
       = (Ok true,
          saved_world self lat1 lon1 tileX1 tileY1 tileX2 tileY2 w w1).
Proof.
  intros Hx Hy HX HY Hav.
  pose proof (retrieval_spec self lat1 lon1 lat2 lon2 _ _ _ _ _ _ _ _ w
                corner1 corner2 Hx Hy tile1 tile2) as Hspec.
  cbv zeta in Hspec.
  assert (Hneg : ((tileX2 - tileX1 + 1) * TILESIZE <? 0)
                 || ((tileY2 - tileY1 + 1) * TILESIZE <? 0) = false).
  { apply orb_false_iff. unfold TILESIZE. split; apply Z.ltb_ge; lia. }
  rewrite Hneg in Hspec. destruct Hspec as (w1 & Hfo & Hspec).
  assert (Hs : sentinel w <> None).
  { apply (available_served _ MAXLEVEL tileX1 tileY1). apply Hav; lia. }
  rewrite (rows_outcome_available (sentinel w)) in Hspec.
  - destruct Hspec as [Hstd Hspec].
    fold (composed MAXLEVEL tileX1 tileY1 tileX2 tileY2) in Hspec.
    rewrite composed_width, composed_height in Hspec.
    assert (Hzero : ((tileX2 - tileX1 + 1) * 256 =? 0)
                    || ((tileY2 - tileY1 + 1) * 256 =? 0) = false).
    { apply orb_false_iff. split; apply Z.eqb_neq; lia. }
    rewrite Hzero in Hspec.
    exists w1. split; [exact Hfo |]. rewrite Hspec. unfold saved_world.
    destruct Hfo as (Hfiles & _). rewrite Hfiles, Hstd. reflexivity.
  - exact Hs.
  - intros tx ty Hty Htx. apply range_In in Hty, Htx. apply Hav; lia.
Qed.

End Success.

(** ** The mosaic of a successful retrieval *)

(** C3: after a successful retrieval the raster saved for the box has width
    [(tileX2 - tileX1 + 1) * 256] and height [(tileY2 - tileY1 + 1) * 256],
    and both tile counts are positive. *)
Theorem mosaic_size_is_tile_range {Geo : Type} {TS : TileSystemFloat Geo}
    {IM : Imagery} (self : AerialImageRetrieval Geo)
    (lat1 lon1 lat2 lon2 : Geo)
    (pixelX1 pixelY1 pixelX2 pixelY2 tileX1 tileY1 tileX2 tileY2 : Z)
    (w w' : World Geo) :
  latlong_to_pixelXY lat1 lon1 MAXLEVEL = (pixelX1, pixelY1) ->
  latlong_to_pixelXY lat2 lon2 MAXLEVEL = (pixelX2, pixelY2) ->
  pixelXY_to_tileXY pixelX1 pixelY1 = (tileX1, tileY1) ->
  pixelXY_to_tileXY pixelX2 pixelY2 = (tileX2, tileY2) ->
  max_resolution_imagery_retrieval self lat1 lon1 lat2 lon2 w = (Ok true, w') ->
  exists raster,
    files w' = (mosaic_filename self lat1 lon1, raster) :: files w
    /\ width raster = (tileX2 - tileX1 + 1) * 256
    /\ height raster = (tileY2 - tileY1 + 1) * 256
    /\ 0 < tileX2 - tileX1 + 1 /\ 0 < tileY2 - tileY1 + 1.
Proof.
  intros Hc1 Hc2 Ht1 Ht2 Hrun.
  destruct (retrieval_success_inv self _ _ _ _ _ _ _ _ _ _ _ _
              Hc1 Hc2 Ht1 Ht2 w w' Hrun)
    as (_ & _ & HX & HY & _ & w1 & _ & ->).
  exists (composed MAXLEVEL tileX1 tileY1 tileX2 tileY2).
  split; [reflexivity |].
  split; [apply composed_width |]. split; [apply composed_height |].
  split; lia.
Qed.

(** C4: after a successful retrieval, with tiles of 256x256 pixels, the
    pixels of the tile [(tileX, tileY)] are found at offset
    [((tileX - tileX1) * 256, (tileY - tileY1) * 256)] of the saved raster,
    and the raster, composed through row buffers, is the one the direct
    placement of every tile at that offset gives. *)
Theorem tiles_placed_by_index {Geo : Type} {TS : TileSystemFloat Geo}
    {IM : Imagery} (self : AerialImageRetrieval Geo)
    (lat1 lon1 lat2 lon2 : Geo)
    (pixelX1 pixelY1 pixelX2 pixelY2 tileX1 tileY1 tileX2 tileY2 : Z)
    (w w' : World Geo) :
  tiles_are_256 ->
  latlong_to_pixelXY lat1 lon1 MAXLEVEL = (pixelX1, pixelY1) ->
  latlong_to_pixelXY lat2 lon2 MAXLEVEL = (pixelX2, pixelY2) ->
  pixelXY_to_tileXY pixelX1 pixelY1 = (tileX1, tileY1) ->
  pixelXY_to_tileXY pixelX2 pixelY2 = (tileX2, tileY2) ->
  max_resolution_imagery_retrieval self lat1 lon1 lat2 lon2 w = (Ok true, w') ->
  exists raster,
    files w' = (mosaic_filename self lat1 lon1, raster) :: files w
    /\ (forall tileX tileY tile u v,
           tileX1 <= tileX <= tileX2 -> tileY1 <= tileY <= tileY2 ->
           tile_at MAXLEVEL tileX tileY = Some tile ->
           0 <= u < 256 -> 0 <= v < 256 ->
           getpixel raster ((tileX - tileX1) * 256 + u)
                    ((tileY - tileY1) * 256 + v)
           = getpixel tile u v)
    /\ same_raster raster
         (direct_placement MAXLEVEL tileX1 tileY1 tileX2 tileY2).
Proof.
  intros Hsize Hc1 Hc2 Ht1 Ht2 Hrun.
  destruct (retrieval_success_inv self _ _ _ _ _ _ _ _ _ _ _ _
              Hc1 Hc2 Ht1 Ht2 w w' Hrun)
    as (_ & _ & HX & HY & Hav & w1 & _ & ->).
  assert (Hsized : forall tx ty,
             tileX1 <= tx <= tileX2 -> tileY1 <= ty <= tileY2 ->
             tile_sized (tile_image MAXLEVEL ty tx)).
  { intros tx ty Hx Hy.
    destruct (available_served _ _ _ _ (Hav tx ty Hx Hy)) as [_ Hserved].
    unfold tile_image.
    destruct (tile_at MAXLEVEL tx ty) as [image |] eqn:Htile;
      [| contradiction].
    exact (Hsize _ _ Htile). }
  exists (composed MAXLEVEL tileX1 tileY1 tileX2 tileY2).
  split; [reflexivity |]. split.
  - intros tx ty tile u v Hx Hy Htile Hu Hv.
    rewrite composed_tile_pixel by assumption.
    unfold tile_image. rewrite Htile. reflexivity.
  - apply composed_is_direct_placement. exact Hsized.
Qed.

(** C6, as amended: when the span does not collapse at MAXLEVEL and every
    tile of the non-empty tile range is available, the retrieval saves the
    raster composed at MAXLEVEL under the file name of the box, prints the
    name, and returns [True]. *)
Theorem success_saves_raster_and_returns_true {Geo : Type}
    {TS : TileSystemFloat Geo} {IM : Imagery}
    (self : AerialImageRetrieval Geo) (lat1 lon1 lat2 lon2 : Geo)
    (pixelX1 pixelY1 pixelX2 pixelY2 tileX1 tileY1 tileX2 tileY2 : Z)
    (w : World Geo) :
  latlong_to_pixelXY lat1 lon1 MAXLEVEL = (pixelX1, pixelY1) ->
  latlong_to_pixelXY lat2 lon2 MAXLEVEL = (pixelX2, pixelY2) ->
  pixelXY_to_tileXY pixelX1 pixelY1 = (tileX1, tileY1) ->
  pixelXY_to_tileXY pixelX2 pixelY2 = (tileX2, tileY2) ->
  1 < Z.abs (pixelX1 - pixelX2) -> 1 < Z.abs (pixelY1 - pixelY2) ->
  tileX1 <= tileX2 -> tileY1 <= tileY2 ->
  (forall tileX tileY,
      tileX1 <= tileX <= tileX2 -> tileY1 <= tileY <= tileY2 ->
      ~ unavailable (sentinel w) MAXLEVEL tileX tileY) ->
  exists w',
    max_resolution_imagery_retrieval self lat1 lon1 lat2 lon2 w = (Ok true, w')
    /\ files w'
       = (mosaic_filename self lat1 lon1,
          composed MAXLEVEL tileX1 tileY1 tileX2 tileY2) :: files w
    /\ stdout w' = ImageSaved (mosaic_filename self lat1 lon1) :: stdout w.
Proof.
  intros Hc1 Hc2 Ht1 Ht2 Hx Hy HX HY Hav.
  destruct (retrieval_succeeds self _ _ _ _ _ _ _ _ _ _ _ _
              Hc1 Hc2 Ht1 Ht2 w Hx Hy HX HY Hav) as (w1 & _ & Hrun).
  eexists. split; [exact Hrun |]. split; reflexivity.
Qed.

(** ** The first unavailable tile *)

Section FirstUnavailable.

Context {IM : Imagery}.
Variable s : option Image.
Variable level : Z.







End FirstUnavailable.

(** ** Unavailable tiles *)


(** ** The bounding box of the retrieval class *)

Section ClassBoundingBox.

Context {Geo : Type} {TS : TileSystemFloat Geo}.

Lemma map_size_MAXLEVEL_pos : (0 <= IZR (map_size MAXLEVEL - 1))%R.
Proof.
  apply IZR_le. unfold map_size, MAXLEVEL. simpl. lia.
Qed.

(** Clipping into an interval that is not empty lands in the interval. *)
Lemma clip_in_range (val minval maxval : R) :
  (minval <= maxval)%R -> (minval <= clip val minval maxval <= maxval)%R.
Proof.
  intros Hle. unfold clip. split.
  - apply Rmin_glb; [apply Rmax_r | exact Hle].
  - apply Rmin_r.
Qed.

(** C8: the four pixel coordinates [calculate_bounding_box] hands to
    [pixelXY_to_latlong] are clipped: each lies in
    [[0, map_size(MAXLEVEL) - 1]].  They are the coordinates the function
    prints as clipped, and the box returned is the one [pixelXY_to_latlong]
    yields for them (unless the division by the ground resolution
    raises, before any conversion). *)
Theorem bounding_box_pixels_clipped (self : AerialImageRetrieval Geo)
    (lat lon : Geo) (w : World Geo) :
  let half_size_pixels :=
    (size_meters self / 2 / ground_resolution lat MAXLEVEL)%R in
  let pixels := clipped_corner_pixels lat lon half_size_pixels in
  let '(pixelX1, pixelY1, pixelX2, pixelY2) := pixels in
  let '(lat1, lon1, lat2, lon2) := box_of_pixels pixels in
  (0 <= pixelX1 <= IZR (map_size MAXLEVEL - 1))%R
  /\ (0 <= pixelY1 <= IZR (map_size MAXLEVEL - 1))%R
  /\ (0 <= pixelX2 <= IZR (map_size MAXLEVEL - 1))%R
  /\ (0 <= pixelY2 <= IZR (map_size MAXLEVEL - 1))%R
  /\ calculate_bounding_box self lat lon w
     = if Req_dec_T (ground_resolution lat MAXLEVEL) 0
       then (Raise ZeroDivisionError, w)
       else (Ok (lat1, lon1, lat2, lon2),
             printed (CalculatedBoundingBox lat1 lon1 lat2 lon2)
               (printed (ClippedPixels pixelX1 pixelY1 pixelX2 pixelY2) w)).
Proof.
  intros half_size_pixels pixels. subst pixels.
  unfold clipped_corner_pixels, calculate_bounding_box, box_of_pixels.
  destruct (latlong_to_pixelXY lat lon MAXLEVEL) as [cx cy].
  destruct (pixelXY_to_latlong (clip (IZR cx - half_size_pixels) _ _) _
                               MAXLEVEL) as [lat1 lon1] eqn:E1.
  destruct (pixelXY_to_latlong (clip (IZR cx + half_size_pixels) _ _) _
                               MAXLEVEL) as [lat2 lon2] eqn:E2.
  pose proof map_size_MAXLEVEL_pos as Hpos.
  repeat (split; [apply clip_in_range; exact Hpos |]).
  unfold bind at 1. unfold py_div.
  destruct (Req_dec_T (ground_resolution lat MAXLEVEL) 0) as [Hz | Hnz].
  - reflexivity.
  - unfold ret at 1. fold half_size_pixels.
    unfold bind at 1. unfold print at 1.
    rewrite E1, E2. reflexivity.
Qed.

End ClassBoundingBox.

(** ** The batch *)

Section Batch.

Context {Geo : Type} {TS : TileSystemFloat Geo} {IM : Imagery}.

Lemma for_each_app {A : Type} (body : A -> M Geo unit) (pre post : list A) :
  forall w w1,
    for_each pre body w = (Ok tt, w1) ->
    for_each (pre ++ post) body w = for_each post body w1.
Proof.
  induction pre as [| item rest IH]; intros w w1 Hpre.
  - simpl in Hpre. injection Hpre as <-. reflexivity.
  - simpl in Hpre |- *. unfold bind in Hpre |- *.
    destruct (body item w) as [[[] | e] w0]; [| discriminate].
    apply IH. exact Hpre.
Qed.

(** One turn of the loop of [retrieve_images] whose retrieval returns. *)
Lemma retrieve_one_returns (self : AerialImageRetrieval Geo)
    (lat lon lat1 lon1 lat2 lon2 : Geo) (success : bool)
    (w w1 w2 : World Geo) :
  calculate_bounding_box self lat lon w = (Ok (lat1, lon1, lat2, lon2), w1) ->
  max_resolution_imagery_retrieval self lat1 lon1 lat2 lon2
    (printed (Processing lat lon) w1) = (Ok success, w2) ->
  retrieve_one self (lat, lon) w
  = (Ok tt, if success then w2 else printed (FailedLocation lat lon) w2).
Proof.
  intros Hbox Hrun. unfold retrieve_one, bind. rewrite Hbox.
  unfold print at 1. rewrite Hrun. destruct success; reflexivity.
Qed.

(** The loop of [retrieve_images] at the turn of one coordinate: what the
    batch does is decided by how the retrieval of that coordinate ends. *)
Lemma retrieve_images_turn (self : AerialImageRetrieval Geo)
    (pre post : list (Geo * Geo)) (lat lon lat1 lon1 lat2 lon2 : Geo)
    (r : Res bool) (w w1 w2 w3 : World Geo) :
  coords self = pre ++ (lat, lon) :: post ->
  for_each pre (retrieve_one self) w = (Ok tt, w1) ->
  calculate_bounding_box self lat lon w1 = (Ok (lat1, lon1, lat2, lon2), w2) ->
  max_resolution_imagery_retrieval self lat1 lon1 lat2 lon2
    (printed (Processing lat lon) w2) = (r, w3) ->
  retrieve_images self w
  = match r with
    | Ok false =>
        for_each post (retrieve_one self)
          (printed (FailedLocation lat lon) w3)
    | Ok true => for_each post (retrieve_one self) w3
    | Raise e => (Raise e, w3)
    end.
Proof.
  intros Hcoords Hpre Hbox Hrun.
  unfold retrieve_images. rewrite Hcoords.
  rewrite (for_each_app _ pre _ w w1 Hpre).
  cbn [for_each]. unfold bind at 1.
  unfold retrieve_one. unfold bind at 1. rewrite Hbox.
  unfold bind at 1. unfold print at 1. unfold bind at 1.
  rewrite Hrun. destruct r as [[|] | e]; reflexivity.
Qed.

(** C5, as amended: at any place of the list, when the coordinates before
    it have been processed, what the batch does next is decided by how the
    retrieval of the coordinate ends.  When it returns [False] (a collapsed
    span, or a tile that equals the placeholder), the failure is printed and
    the loop goes on with the coordinates after it, all of them, exactly as
    it processes a list; when it returns [True] the loop goes on likewise.
    When an exception escapes from it, as for a failed fetch, the batch ends
    with that exception and the coordinates after it are not processed. *)
Theorem failure_does_not_stop_batch (self : AerialImageRetrieval Geo)
    (pre post : list (Geo * Geo)) (lat lon lat1 lon1 lat2 lon2 : Geo)
    (r : Res bool) (w w1 w2 w3 : World Geo) :
  coords self = pre ++ (lat, lon) :: post ->
  for_each pre (retrieve_one self) w = (Ok tt, w1) ->
  calculate_bounding_box self lat lon w1 = (Ok (lat1, lon1, lat2, lon2), w2) ->
  max_resolution_imagery_retrieval self lat1 lon1 lat2 lon2
    (printed (Processing lat lon) w2) = (r, w3) ->
  retrieve_images self w
  = match r with
    | Ok false =>
        for_each post (retrieve_one self)
          (printed (FailedLocation lat lon) w3)
    | Ok true => for_each post (retrieve_one self) w3
    | Raise e => (Raise e, w3)
    end.
Proof.
  intros Hcoords Hpre Hbox Hrun.
  exact (retrieve_images_turn self pre post lat lon lat1 lon1 lat2 lon2 r
           w w1 w2 w3 Hcoords Hpre Hbox Hrun).
Qed.

End Batch.

(** ** The scenarios, run *)

Section Runs.

Import Scenario.

Lemma run_coverage (c : Color) :
  c = red \/ c = blue -> run (coverage c) = (Ok true, snd (run (coverage c))).
Proof.
  intros [-> | ->]; apply injective_projections;
    solve [vm_compute; reflexivity | reflexivity].
Qed.

Lemma coverage_tiles_are_256 (c : Color) : tiles_are_256 (IM := coverage c).
Proof.
  intros url image. simpl.
  destruct (String.eqb url (BASEURL_format NULLKEY));
    intros Himage; injection Himage as <-; split; reflexivity.
Qed.

Lemma coverage_available (tileX tileY : Z) :
  0 <= tileX <= 2 -> 0 <= tileY <= 1 ->
  ~ unavailable (IM := coverage red) (sentinel (IM := coverage red) fresh)
                MAXLEVEL tileX tileY.
Proof.
  intros Hx Hy.
  assert (Ex : tileX = 0 \/ tileX = 1 \/ tileX = 2) by lia.
  assert (Ey : tileY = 0 \/ tileY = 1) by lia.
  destruct Ex as [-> | [-> | ->]]; destruct Ey as [-> | ->];
    vm_compute; discriminate.
Qed.


End Runs.

Lemma mosaic_size_is_tile_range_witness :
  exists raster,
    files (snd (max_resolution_imagery_retrieval
                  (TS := Scenario.pixel_grid)
                  (IM := Scenario.coverage Scenario.red)
                  Scenario.retrieval 0 0 300 600 Scenario.fresh))
    = (mosaic_filename (TS := Scenario.pixel_grid) Scenario.retrieval 0 0,
       raster) :: files Scenario.fresh
    /\ width raster = (2 - 0 + 1) * 256
    /\ height raster = (1 - 0 + 1) * 256
    /\ 0 < 2 - 0 + 1 /\ 0 < 1 - 0 + 1.
Proof.
  apply (mosaic_size_is_tile_range
              (TS := Scenario.pixel_grid)
              (IM := Scenario.coverage Scenario.red)
              Scenario.retrieval 0 0 300 600 0 0 600 300 0 0 2 1
              Scenario.fresh).
  - reflexivity.
  - reflexivity.
  - reflexivity.
  - reflexivity.
  - apply (run_coverage Scenario.red). left. reflexivity.
Defined.

Lemma tiles_placed_by_index_witness :
  exists raster,
    files (snd (Scenario.run (Scenario.coverage Scenario.red)))
    = (mosaic_filename (TS := Scenario.pixel_grid) Scenario.retrieval 0 0,
       raster) :: files Scenario.fresh
    /\ (forall tileX tileY tile u v,
           0 <= tileX <= 2 -> 0 <= tileY <= 1 ->
           tile_at (IM := Scenario.coverage Scenario.red)
                   MAXLEVEL tileX tileY = Some tile ->
           0 <= u < 256 -> 0 <= v < 256 ->
           getpixel raster ((tileX - 0) * 256 + u) ((tileY - 0) * 256 + v)
           = getpixel tile u v)
    /\ same_raster raster
         (direct_placement (IM := Scenario.coverage Scenario.red)
                           MAXLEVEL 0 0 2 1).
Proof.
  apply (tiles_placed_by_index
           (TS := Scenario.pixel_grid)
           (IM := Scenario.coverage Scenario.red)
           Scenario.retrieval 0 0 300 600 0 0 600 300 0 0 2 1
           Scenario.fresh).
  - apply coverage_tiles_are_256.
  - reflexivity.
  - reflexivity.
  - reflexivity.
  - reflexivity.
  - apply (run_coverage Scenario.red). left. reflexivity.
Defined.

Lemma success_saves_raster_and_returns_true_witness :
  exists w',
    Scenario.run (Scenario.coverage Scenario.red) = (Ok true, w')
    /\ files w'
       = (mosaic_filename (TS := Scenario.pixel_grid) Scenario.retrieval 0 0,
          composed (IM := Scenario.coverage Scenario.red) MAXLEVEL 0 0 2 1)
           :: files Scenario.fresh
    /\ stdout w'
       = ImageSaved
           (mosaic_filename (TS := Scenario.pixel_grid) Scenario.retrieval 0 0)
           :: stdout Scenario.fresh.
Proof.
  apply (success_saves_raster_and_returns_true
           (TS := Scenario.pixel_grid)
           (IM := Scenario.coverage Scenario.red)
           Scenario.retrieval 0 0 300 600 0 0 600 300 0 0 2 1
           Scenario.fresh).
  - reflexivity.
  - reflexivity.
  - reflexivity.
  - reflexivity.
  - simpl. lia.
  - simpl. lia.
  - lia.
  - lia.
  - apply coverage_available.
Defined.

(** C6, as it is stated, fails: over a service whose tiles are red and over
    one whose tiles are blue the same retrieval hands back the same value,
    [True], while the rasters composed differ in their first pixel. *)
Lemma result_does_not_carry_raster : ~ Stated.result_carries_raster.
Proof.
  intros Hclaim.
  pose proof (run_coverage Scenario.red (or_introl eq_refl)) as Hred.
  pose proof (run_coverage Scenario.blue (or_intror eq_refl)) as Hblue.
  unfold Scenario.run in Hred, Hblue.
  destruct (retrieval_success_inv
              (TS := Scenario.pixel_grid)
              (IM := Scenario.coverage Scenario.red)
              Scenario.retrieval 0 0 300 600 0 0 600 300 0 0 2 1
              eq_refl eq_refl eq_refl eq_refl _ _ Hred)
    as (_ & _ & _ & _ & _ & wr & _ & Ewr).
  destruct (retrieval_success_inv
              (TS := Scenario.pixel_grid)
              (IM := Scenario.coverage Scenario.blue)
              Scenario.retrieval 0 0 300 600 0 0 600 300 0 0 2 1
              eq_refl eq_refl eq_refl eq_refl _ _ Hblue)
    as (_ & _ & _ & _ & _ & wb & _ & Ewb).
  rewrite Ewr in Hred. rewrite Ewb in Hblue.
  pose proof (Hclaim Z Scenario.pixel_grid
                (Scenario.coverage Scenario.red)
                (Scenario.coverage Scenario.blue)
                Scenario.retrieval 0 0 300 600 Scenario.fresh _ _ _ _
                _ _ _ _ Hred Hblue eq_refl eq_refl eq_refl)
    as (_ & _ & Hpixels).
  specialize (Hpixels 0 0).
  rewrite composed_width, composed_height in Hpixels.
  specialize (Hpixels ltac:(lia) ltac:(lia)).
  vm_compute in Hpixels. discriminate.
Qed.



Lemma failure_does_not_stop_batch_witness :
  retrieve_images (TS := Scenario.pixel_grid) (IM := Scenario.offline)
    Scenario.retrieval Scenario.fresh
  = for_each [(9, 11)]
      (retrieve_one (TS := Scenario.pixel_grid) (IM := Scenario.offline)
                    Scenario.retrieval)
      (printed (FailedLocation 5 7)
         (printed NoImagery
            (printed (Processing 5 7)
               (snd (calculate_bounding_box (TS := Scenario.pixel_grid)
                       Scenario.retrieval 5 7 Scenario.fresh))))).
Proof.
  apply (failure_does_not_stop_batch
           (TS := Scenario.pixel_grid) (IM := Scenario.offline)
           Scenario.retrieval [] [(9, 11)] 5 7 0 0 0 0 (Ok false)
           Scenario.fresh Scenario.fresh
           (snd (calculate_bounding_box (TS := Scenario.pixel_grid)
                   Scenario.retrieval 5 7 Scenario.fresh))
           (printed NoImagery
              (printed (Processing 5 7)
                 (snd (calculate_bounding_box (TS := Scenario.pixel_grid)
                         Scenario.retrieval 5 7 Scenario.fresh))))).
  - reflexivity.
  - reflexivity.
  - apply injective_projections; [| reflexivity].
    unfold calculate_bounding_box, bind, py_div. simpl.
    destruct (Req_dec_T 1 0) as [Habs | _]; [lra | reflexivity].
  - apply (retrieval_collapsed
             (TS := Scenario.pixel_grid) (IM := Scenario.offline)
             Scenario.retrieval 0 0 0 0 0 0 0 0).
    + reflexivity.
    + reflexivity.
    + left. simpl. lia.
Defined.

(* ================================================================== *)
(** * Further properties of calculate_bounding_box.py *)
(* ================================================================== *)

Section BoundingBoxUtilShape.

Import BoundingBoxUtil.
Local Open Scope R_scope.

(** X11: the box is square on the ground: its latitude extent is the box side
    turned into degrees of arc, whatever the center, and its longitude
    extent, shrunk by the cosine of the latitude, is the same. *)
Theorem bounding_box_square_on_ground (lat lon box_size_meters : R) :
  Rabs lat < 90 ->
  let '(lat1, lon1, lat2, lon2) :=
    BoundingBoxUtil.calculate_bounding_box lat lon box_size_meters in
  lat1 - lat2 = degrees (box_size_meters / R_earth)
  /\ (lon2 - lon1) * cos (radians lat) = lat1 - lat2.
Proof.
  intros Hlat. unfold BoundingBoxUtil.calculate_bounding_box.
  pose proof (cos_latitude_pos lat Hlat) as Hcos.
  pose proof R_earth_pos as HR.
  rewrite !degrees_plus, !degrees_minus, !degrees_half.
  split; [lra |].
  unfold degrees. field. repeat split; try lra. apply PI_neq0.
Qed.

Lemma bounding_box_square_on_ground_witness :
  let '(lat1, lon1, lat2, lon2) :=
    BoundingBoxUtil.calculate_bounding_box 0 0 200 in
  lat1 - lat2 = degrees (200 / R_earth)
  /\ (lon2 - lon1) * cos (radians 0) = lat1 - lat2.
Proof.
  apply (bounding_box_square_on_ground 0 0 200).
  rewrite Rabs_R0. lra.
Defined.

(** X12: away from the poles the box is at least as wide as it is tall, in
    degrees. *)
Theorem bounding_box_wider_than_tall (lat lon box_size_meters : R) :
  Rabs lat < 90 -> 0 <= box_size_meters ->
  let '(lat1, lon1, lat2, lon2) :=
    BoundingBoxUtil.calculate_bounding_box lat lon box_size_meters in
  lat1 - lat2 <= lon2 - lon1.
Proof.
  intros Hlat Hsize.
  pose proof (cos_latitude_pos lat Hlat) as Hcos.
  pose proof (COS_bound (radians lat)) as [_ Hle].
  pose proof R_earth_pos as HR.
  unfold BoundingBoxUtil.calculate_bounding_box.
  rewrite !degrees_plus, !degrees_minus, !degrees_half.
  assert (Hd : degrees (box_size_meters / R_earth)
               <= degrees (box_size_meters / (R_earth * cos (radians lat)))).
  { unfold degrees. pose proof PI_RGT_0 as Hpi.
    apply Rmult_le_compat_r; [left; apply Rinv_0_lt_compat; exact Hpi |].
    apply Rmult_le_compat_r; [lra |].
    unfold Rdiv. apply Rmult_le_compat_l; [exact Hsize |].
    apply Rinv_le_contravar; [apply Rmult_lt_0_compat; assumption |].
    nra. }
  lra.
Qed.

Lemma bounding_box_wider_than_tall_witness :
  let '(lat1, lon1, lat2, lon2) :=
    BoundingBoxUtil.calculate_bounding_box 60 10 500 in
  lat1 - lat2 <= lon2 - lon1.
Proof.
  apply (bounding_box_wider_than_tall 60 10 500).
  - rewrite Rabs_pos_eq; lra.
  - lra.
Defined.

(** X13: a larger box around the same center contains the smaller one. *)
Theorem bounding_box_nested (lat lon small large : R) :
  Rabs lat < 90 -> 0 <= small <= large ->
  let '(lat1, lon1, lat2, lon2) :=
    BoundingBoxUtil.calculate_bounding_box lat lon small in
  let '(lat1', lon1', lat2', lon2') :=
    BoundingBoxUtil.calculate_bounding_box lat lon large in
  lat2' <= lat2 /\ lat1 <= lat1' /\ lon1' <= lon1 /\ lon2 <= lon2'.
Proof.
  intros Hlat [Hsmall Hle].
  pose proof (cos_latitude_pos lat Hlat) as Hcos.
  pose proof R_earth_pos as HR.
  pose proof PI_RGT_0 as Hpi.
  unfold BoundingBoxUtil.calculate_bounding_box.
  rewrite !degrees_plus, !degrees_minus, !degrees_half.
  assert (Hmono : forall k, 0 < k ->
             degrees (small / k) <= degrees (large / k)).
  { intros k Hk. unfold degrees.
    apply Rmult_le_compat_r; [left; apply Rinv_0_lt_compat; exact Hpi |].
    apply Rmult_le_compat_r; [lra |].
    unfold Rdiv. apply Rmult_le_compat_r; [| exact Hle].
    left. apply Rinv_0_lt_compat. exact Hk. }
  pose proof (Hmono R_earth HR) as H1.
  pose proof (Hmono (R_earth * cos (radians lat))
                    (Rmult_lt_0_compat _ _ HR Hcos)) as H2.
  repeat split; lra.
Qed.

Lemma bounding_box_nested_witness :
  let '(lat1, lon1, lat2, lon2) :=
    BoundingBoxUtil.calculate_bounding_box 0 0 200 in
  let '(lat1', lon1', lat2', lon2') :=
    BoundingBoxUtil.calculate_bounding_box 0 0 500 in
  lat2' <= lat2 /\ lat1 <= lat1' /\ lon1' <= lon1 /\ lon2 <= lon2'.
Proof.
  apply (bounding_box_nested 0 0 200 500).
  - rewrite Rabs_R0. lra.
  - lra.
Defined.

(** X14: moving the center along a parallel moves the box with it: the
    latitudes stay, both longitudes move by the same amount. *)
Theorem bounding_box_longitude_shift (lat lon shift box_size_meters : R) :
  Rabs lat < 90 ->
  BoundingBoxUtil.calculate_bounding_box lat (lon + shift) box_size_meters
  = let '(lat1, lon1, lat2, lon2) :=
      BoundingBoxUtil.calculate_bounding_box lat lon box_size_meters in
    (lat1, lon1 + shift, lat2, lon2 + shift).
Proof.
  intros _. unfold BoundingBoxUtil.calculate_bounding_box.
  assert (E : radians (lon + shift) = radians lon + radians shift).
  { unfold radians. lra. }
  rewrite E, !degrees_plus, !degrees_minus, !degrees_plus, !degrees_radians.
  repeat match goal with
         | |- (_, _) = (_, _) => apply f_equal2
         end; lra.
Qed.

Lemma bounding_box_longitude_shift_witness :
  BoundingBoxUtil.calculate_bounding_box 0 (10 + 5) 200
  = let '(lat1, lon1, lat2, lon2) :=
      BoundingBoxUtil.calculate_bounding_box 0 10 200 in
    (lat1, lon1 + 5, lat2, lon2 + 5).
Proof.
  apply (bounding_box_longitude_shift 0 10 5 200).
  rewrite Rabs_R0. lra.
Defined.

(** X15: mirroring the center at the equator mirrors the box: the longitudes
    stay, and the two latitudes change sign and places. *)
Theorem bounding_box_equator_mirror (lat lon box_size_meters : R) :
  Rabs lat < 90 ->
  BoundingBoxUtil.calculate_bounding_box (- lat) lon box_size_meters
  = let '(lat1, lon1, lat2, lon2) :=
      BoundingBoxUtil.calculate_bounding_box lat lon box_size_meters in
    (- lat2, lon1, - lat1, lon2).
Proof.
  intros _. unfold BoundingBoxUtil.calculate_bounding_box.
  assert (E : radians (- lat) = - radians lat).
  { unfold radians. lra. }
  rewrite E, cos_neg.
  assert (Hopp : forall a, degrees (- a) = - degrees a).
  { intros a. unfold degrees. lra. }
  rewrite !degrees_plus, !degrees_minus, !Hopp.
  repeat match goal with
         | |- (_, _) = (_, _) => apply f_equal2
         end; lra.
Qed.

Lemma bounding_box_equator_mirror_witness :
  BoundingBoxUtil.calculate_bounding_box (- 45) 10 200
  = let '(lat1, lon1, lat2, lon2) :=
      BoundingBoxUtil.calculate_bounding_box 45 10 200 in
    (- lat2, lon1, - lat1, lon2).
Proof.
  apply (bounding_box_equator_mirror 45 10 200).
  rewrite Rabs_pos_eq; lra.
Defined.

(** X16: a box of side zero is the center itself, twice. *)
Theorem bounding_box_of_size_zero (lat lon : R) :
  Rabs lat < 90 ->
  BoundingBoxUtil.calculate_bounding_box lat lon 0 = (lat, lon, lat, lon).
Proof.
  intros _. unfold BoundingBoxUtil.calculate_bounding_box.
  unfold Rdiv at 1 2 3 4 5 6. rewrite !Rmult_0_l.
  unfold Rdiv. rewrite !Rmult_0_l.
  rewrite Rplus_0_r, !Rminus_0_r, Rplus_0_r.
  rewrite !degrees_radians. reflexivity.
Qed.

Lemma bounding_box_of_size_zero_witness :
  BoundingBoxUtil.calculate_bounding_box 45 10 0 = (45, 10, 45, 10).
Proof.
  apply (bounding_box_of_size_zero 45 10).
  rewrite Rabs_pos_eq; lra.
Defined.

End BoundingBoxUtilShape.

(* ================================================================== *)
(** * Further properties of bing_download.py *)
(* ================================================================== *)

(** ** The validity check and its cache *)

Section PlaceholderCache.

Context {Geo : Type} {IM : Imagery}.

Lemma add_requests_nil (w : World Geo) : add_requests [] w = w.
Proof. destruct w. reflexivity. Qed.

Lemma add_requests_app (urls1 urls2 : list string) (w : World Geo) :
  add_requests urls2 (add_requests urls1 w) = add_requests (urls2 ++ urls1) w.
Proof.
  unfold add_requests. simpl. rewrite app_assoc. reflexivity.
Qed.

Lemma download_image_exact (quadkey : string) (w : World Geo) :
  download_image quadkey w
  = (match urlopen (BASEURL_format quadkey) with
     | Some image => Ok image
     | None => Raise URLError
     end, add_requests [BASEURL_format quadkey] w).
Proof.
  unfold download_image, open_url.
  destruct (urlopen (BASEURL_format quadkey)); reflexivity.
Qed.

(** With [null.png] in place the validity check touches nothing. *)
Lemma is_valid_image_cached (image null : Image) (w : World Geo) :
  null_png w = Some null ->
  is_valid_image image w = (Ok (negb (image_eq image null)), w).
Proof.
  intros Hnull.
  unfold is_valid_image, bind, null_png_exists, open_null_png.
  rewrite Hnull. simpl. rewrite Hnull. reflexivity.
Qed.

(** X4: once a validity check has returned, [null.png] holds the placeholder:
    the one that was there, or else the image served for the reserved
    quadkey.  From then on a validity check opens no URL and changes
    nothing: it only compares with that placeholder. *)
Theorem placeholder_is_fetched_once (image : Image) (valid : bool)
    (w w' : World Geo) :
  is_valid_image image w = (Ok valid, w') ->
  exists null,
    null_png w' = Some null
    /\ (null_png w = Some null
        \/ (null_png w = None
            /\ urlopen (BASEURL_format NULLKEY) = Some null))
    /\ valid = negb (image_eq image null)
    /\ forall image2,
         is_valid_image image2 w' = (Ok (negb (image_eq image2 null)), w').
Proof.
  intros Hrun.
  destruct (null_png w) as [null |] eqn:Hnull.
  - rewrite (is_valid_image_cached image null w Hnull) in Hrun.
    injection Hrun as <- <-.
    exists null. split; [exact Hnull |]. split; [left; reflexivity |].
    split; [reflexivity |].
    intros image2. apply is_valid_image_cached. exact Hnull.
  - unfold is_valid_image, bind, null_png_exists in Hrun.
    rewrite Hnull in Hrun. simpl in Hrun.
    rewrite download_image_exact in Hrun.
    destruct (urlopen (BASEURL_format NULLKEY)) as [null |] eqn:Hurl;
      [| discriminate].
    simpl in Hrun. injection Hrun as <- <-.
    exists null. split; [reflexivity |].
    split; [right; split; reflexivity |]. split; [reflexivity |].
    intros image2. apply is_valid_image_cached. reflexivity.
Qed.

End PlaceholderCache.

Lemma placeholder_is_fetched_once_witness :
  exists null,
    null_png (snd (is_valid_image (IM := Scenario.coverage Scenario.red)
                     (Scenario.solid Scenario.red) Scenario.fresh))
    = Some null
    /\ (null_png Scenario.fresh = Some null
        \/ (null_png Scenario.fresh = None
            /\ urlopen (Imagery := Scenario.coverage Scenario.red)
                       (BASEURL_format NULLKEY) = Some null))
    /\ true = negb (image_eq (Imagery := Scenario.coverage Scenario.red)
                             (Scenario.solid Scenario.red) null)
    /\ forall image2,
         is_valid_image (IM := Scenario.coverage Scenario.red) image2
           (snd (is_valid_image (IM := Scenario.coverage Scenario.red)
                   (Scenario.solid Scenario.red) Scenario.fresh))
         = (Ok (negb (image_eq (Imagery := Scenario.coverage Scenario.red)
                               image2 null)),
            snd (is_valid_image (IM := Scenario.coverage Scenario.red)
                   (Scenario.solid Scenario.red) Scenario.fresh)).
Proof.
  apply (placeholder_is_fetched_once
           (IM := Scenario.coverage Scenario.red)
           (Scenario.solid Scenario.red) true Scenario.fresh).
  reflexivity.
Defined.

(** ** The order of the requests *)

Section FetchOrder.

Context {Geo : Type} {IM : Imagery}.
Variable level : Z.
Variable null : Image.

(** One turn of the inner loop with [null.png] in place. *)
Lemma fetch_row_step_cached (tileY tileX : Z) (rest : list Z)
    (imagelist : list Image) (w : World Geo) :
  null_png w = Some null ->
  fetch_row level tileY (tileX :: rest) imagelist w
  = match tile_at level tileX tileY with
    | None =>
        (Raise URLError, add_requests [tile_url level (tileX, tileY)] w)
    | Some image =>
        if image_eq image null
        then (Ok (inl false),
              printed (NoTile level tileX tileY)
                (add_requests [tile_url level (tileX, tileY)] w))
        else fetch_row level tileY rest (imagelist ++ [image])
               (add_requests [tile_url level (tileX, tileY)] w)
    end.
Proof.
  intros Hnull. cbn [fetch_row]. cbv zeta. unfold bind at 1.
  rewrite download_image_exact. unfold tile_at, tile_url. simpl fst. simpl snd.
  destruct (urlopen (BASEURL_format (tileXY_to_quadkey tileX tileY level)))
    as [image |]; [| reflexivity].
  unfold bind at 1.
  rewrite (is_valid_image_cached image null) by exact Hnull.
  destruct (image_eq image null); reflexivity.
Qed.

(** With [null.png] in place, a row opens the URLs of its tiles from left to
    right and stops at the first tile that is unavailable. *)
Lemma fetch_row_cached (tileY : Z) (tileXs : list Z) :
  forall (imagelist : list Image) (w : World Geo),
    null_png w = Some null ->
    match row_outcome (Some null) level tileY tileXs imagelist with
    | Done images =>
        fetch_row level tileY tileXs imagelist w
        = (Ok (inr images),
           add_requests
             (rev (map (fun tx => tile_url level (tx, tileY)) tileXs)) w)
    | Invalid tileX _ =>
        exists before after,
          tileXs = before ++ tileX :: after
          /\ (forall tx, In tx before ->
                         ~ unavailable (Some null) level tx tileY)
          /\ fetch_row level tileY tileXs imagelist w
             = (Ok (inl false),
                printed (NoTile level tileX tileY)
                  (add_requests
                     (rev (map (fun tx => tile_url level (tx, tileY))
                               (before ++ [tileX]))) w))
    | Failed e =>
        exists before tileX after,
          tileXs = before ++ tileX :: after
          /\ (forall tx, In tx before ->
                         ~ unavailable (Some null) level tx tileY)
          /\ tile_at level tileX tileY = None
          /\ fetch_row level tileY tileXs imagelist w
             = (Raise e,
                add_requests
                  (rev (map (fun tx => tile_url level (tx, tileY))
                            (before ++ [tileX]))) w)
    end.
Proof.
  induction tileXs as [| tileX rest IH]; intros imagelist w Hnull.
  - simpl. rewrite add_requests_nil. reflexivity.
  - rewrite (fetch_row_step_cached tileY tileX rest imagelist w Hnull).
    cbn [row_outcome].
    destruct (tile_at level tileX tileY) as [image |] eqn:Htile.
    2:{ exists [], tileX, rest. split; [reflexivity |].
        split; [intros tx [] |]. split; [exact Htile | reflexivity]. }
    destruct (image_eq image null) eqn:Heq.
    { exists [], rest. split; [reflexivity |].
      split; [intros tx [] | reflexivity]. }
    assert (Hav : ~ unavailable (Some null) level tileX tileY).
    { unfold unavailable. rewrite Htile, Heq. discriminate. }
    specialize (IH (imagelist ++ [image])
                   (add_requests [tile_url level (tileX, tileY)] w) Hnull).
    destruct (row_outcome (Some null) level tileY rest (imagelist ++ [image]))
      as [images | tx ty | e].
    + rewrite IH, add_requests_app. reflexivity.
    + destruct IH as (before & after & -> & Hbefore & Hrun).
      exists (tileX :: before), after. split; [reflexivity |]. split.
      * intros tx' [<- | Hin]; [exact Hav | apply Hbefore; exact Hin].
      * rewrite Hrun, add_requests_app. reflexivity.
    + destruct IH as (before & tx & after & -> & Hbefore & Hnone & Hrun).
      exists (tileX :: before), tx, after. split; [reflexivity |]. split.
      * intros tx' [<- | Hin]; [exact Hav | apply Hbefore; exact Hin].
      * split; [exact Hnone |].
        rewrite Hrun, add_requests_app. reflexivity.
Qed.

Lemma fetch_rows_step (tileX1 tileX2 tileY1 tileY : Z) (rest : list Z)
    (result : Image) (w : World Geo) :
  fetch_rows level tileX1 tileX2 tileY1 (tileY :: rest) result w
  = match fetch_row level tileY (range tileX1 (tileX2 + 1)) [] w with
    | (Ok (inr imagelist), w1) =>
        fetch_rows level tileX1 tileX2 tileY1 rest
          (paste result (row_buffer imagelist) 0 ((tileY - tileY1) * TILESIZE))
          w1
    | (Ok (inl b), w1) => (Ok (inl b), w1)
    | (Raise e, w1) => (Raise e, w1)
    end.
Proof.
  cbn [fetch_rows]. unfold bind at 1.
  destruct (fetch_row level tileY (range tileX1 (tileX2 + 1)) [] w)
    as [[[b | imagelist] | e] w1]; try reflexivity.
  unfold bind at 1. rewrite Image_new_row. reflexivity.
Qed.

Lemma row_major_cons (tileXs : list Z) (tileY : Z) (rest : list Z) :
  row_major tileXs (tileY :: rest)
  = map (fun tx => (tx, tileY)) tileXs ++ row_major tileXs rest.
Proof. reflexivity. Qed.

Lemma row_urls (tileY : Z) (tileXs : list Z) :
  map (tile_url level) (map (fun tx => (tx, tileY)) tileXs)
  = map (fun tx => tile_url level (tx, tileY)) tileXs.
Proof. apply map_map. Qed.

(** With [null.png] in place, the rows open the URLs of their tiles in
    row-major order and stop at the first tile that is unavailable. *)
Lemma fetch_rows_cached (tileX1 tileX2 tileY1 : Z) (tileYs : list Z) :
  forall (result : Image) (w : World Geo),
    null_png w = Some null ->
    match rows_outcome (Some null) level tileX1 tileX2 tileY1 tileYs result
    with
    | Done raster =>
        fetch_rows level tileX1 tileX2 tileY1 tileYs result w
        = (Ok (inr raster),
           add_requests
             (rev (map (tile_url level)
                       (row_major (range tileX1 (tileX2 + 1)) tileYs))) w)
    | Invalid tileX tileY =>
        exists before after,
          row_major (range tileX1 (tileX2 + 1)) tileYs
          = before ++ (tileX, tileY) :: after
          /\ (forall t, In t before ->
                        ~ unavailable (Some null) level (fst t) (snd t))
          /\ fetch_rows level tileX1 tileX2 tileY1 tileYs result w
             = (Ok (inl false),
                printed (NoTile level tileX tileY)
                  (add_requests
                     (rev (map (tile_url level) (before ++ [(tileX, tileY)])))
                     w))
    | Failed e =>
        exists before t after,
          row_major (range tileX1 (tileX2 + 1)) tileYs = before ++ t :: after
          /\ (forall t', In t' before ->
                         ~ unavailable (Some null) level (fst t') (snd t'))
          /\ tile_at level (fst t) (snd t) = None
          /\ fetch_rows level tileX1 tileX2 tileY1 tileYs result w
             = (Raise e,
                add_requests (rev (map (tile_url level) (before ++ [t]))) w)
    end.
Proof.
  induction tileYs as [| tileY rest IH]; intros result w Hnull.
  - simpl. rewrite add_requests_nil. reflexivity.
  - rewrite fetch_rows_step. cbn [rows_outcome]. rewrite row_major_cons.
    set (xs := range tileX1 (tileX2 + 1)).
    pose proof (fetch_row_cached tileY xs [] w Hnull) as Hrow.
    pose proof (row_outcome_stops (Some null) level tileY xs []) as Hstops.
    destruct (row_outcome (Some null) level tileY xs [])
      as [imagelist | tx ty | e] eqn:Hout.
    + rewrite Hrow.
      apply row_outcome_done in Hout. destruct Hout as [_ Hav].
      assert (Hrowav : forall t, In t (map (fun tx => (tx, tileY)) xs) ->
                  ~ unavailable (Some null) level (fst t) (snd t)).
      { intros t Hin. apply in_map_iff in Hin.
        destruct Hin as (tx & <- & Hin). apply Hav. exact Hin. }
      specialize (IH (paste result (row_buffer imagelist) 0
                            ((tileY - tileY1) * TILESIZE))
                     (add_requests
                        (rev (map (fun tx => tile_url level (tx, tileY)) xs))
                        w) Hnull).
      fold xs in IH.
      destruct (rows_outcome (Some null) level tileX1 tileX2 tileY1 rest _)
        as [raster | tx ty | e].
      * rewrite IH, add_requests_app, map_app, rev_app_distr, row_urls.
        reflexivity.
      * destruct IH as (before & after & Hsplit & Hbefore & Hrun).
        exists (map (fun tx => (tx, tileY)) xs ++ before), after.
        split; [rewrite Hsplit, app_assoc; reflexivity |]. split.
        -- intros t Hin. apply in_app_or in Hin.
           destruct Hin as [Hin | Hin]; [apply Hrowav | apply Hbefore];
             exact Hin.
        -- rewrite Hrun, add_requests_app.
           rewrite <- (app_assoc (map (fun tx => (tx, tileY)) xs) before).
           rewrite (map_app (tile_url level) (map (fun tx => (tx, tileY)) xs)).
           rewrite rev_app_distr, row_urls.
           reflexivity.
      * destruct IH as (before & t & after & Hsplit & Hbefore & Hnone & Hrun).
        exists (map (fun tx => (tx, tileY)) xs ++ before), t, after.
        split; [rewrite Hsplit, app_assoc; reflexivity |]. split.
        -- intros t' Hin. apply in_app_or in Hin.
           destruct Hin as [Hin | Hin]; [apply Hrowav | apply Hbefore];
             exact Hin.
        -- split; [exact Hnone |].
           rewrite Hrun, add_requests_app.
           rewrite <- (app_assoc (map (fun tx => (tx, tileY)) xs) before).
           rewrite (map_app (tile_url level) (map (fun tx => (tx, tileY)) xs)).
           rewrite rev_app_distr, row_urls.
           reflexivity.
    + destruct Hstops as (_ & -> & _).
      destruct Hrow as (before & after & Hsplit & Hbefore & Hrun).
      rewrite Hrun.
      exists (map (fun tx => (tx, tileY)) before),
             (map (fun tx => (tx, tileY)) after
                ++ row_major xs rest).
      split.
      { rewrite Hsplit, map_app. simpl. rewrite <- app_assoc. reflexivity. }
      split.
      { intros t Hin. apply in_map_iff in Hin.
        destruct Hin as (tx' & <- & Hin). apply Hbefore. exact Hin. }
      replace (map (fun tx => (tx, tileY)) before ++ [(tx, tileY)])
        with (map (fun tx => (tx, tileY)) (before ++ [tx]))
        by (rewrite map_app; reflexivity).
      rewrite row_urls. reflexivity.
    + destruct Hrow as (before & tx & after & Hsplit & Hbefore & Hnone & Hrun).
      rewrite Hrun.
      exists (map (fun tx => (tx, tileY)) before), (tx, tileY),
             (map (fun tx => (tx, tileY)) after
                ++ row_major xs rest).
      split.
      { rewrite Hsplit, map_app. simpl. rewrite <- app_assoc. reflexivity. }
      split.
      { intros t Hin. apply in_map_iff in Hin.
        destruct Hin as (tx' & <- & Hin). apply Hbefore. exact Hin. }
      split; [exact Hnone |].
      replace (map (fun tx => (tx, tileY)) before ++ [(tx, tileY)])
        with (map (fun tx => (tx, tileY)) (before ++ [tx]))
        by (rewrite map_app; reflexivity).
      rewrite row_urls. reflexivity.
Qed.

End FetchOrder.

(** ** Empty tile ranges *)

Section EmptyRange.

Context {Geo : Type} {IM : Imagery}.

Lemma range_empty (a b : Z) : b <= a -> range a b = [].
Proof.
  intros Hle. unfold range.
  replace (Z.to_nat (b - a)) with 0%nat by lia. reflexivity.
Qed.

Lemma fetch_rows_no_columns (level tileX1 tileX2 tileY1 : Z)
    (tileYs : list Z) :
  range tileX1 (tileX2 + 1) = [] ->
  forall (result : Image) (w : World Geo),
    fetch_rows level tileX1 tileX2 tileY1 tileYs result w
    = (Ok (inr (compose_rows level tileX1 tileX2 tileY1 tileYs result)), w).
Proof.
  intros Hxs. induction tileYs as [| tileY rest IH]; intros result w.
  - reflexivity.
  - rewrite fetch_rows_step, Hxs. cbn [fetch_row]. unfold ret at 1.
    rewrite IH. unfold compose_rows. rewrite Hxs. reflexivity.
Qed.

(** A tile range without columns or without rows is composed without any
    fetch. *)
Lemma fetch_rows_nothing_to_fetch (level tileX1 tileX2 tileY1 tileY2 : Z)
    (result : Image) (w : World Geo) :
  tileX2 < tileX1 \/ tileY2 < tileY1 ->
  0 <= tileX2 - tileX1 + 1 -> 0 <= tileY2 - tileY1 + 1 ->
  fetch_rows level tileX1 tileX2 tileY1 (range tileY1 (tileY2 + 1)) result w
  = (Ok (inr (compose_rows level tileX1 tileX2 tileY1
                (range tileY1 (tileY2 + 1)) result)), w).
Proof.
  intros Horder HW HH.
  destruct (Z_lt_le_dec tileX2 tileX1) as [Hcols | Hcols].
  - apply fetch_rows_no_columns. apply range_empty. lia.
  - rewrite (range_empty tileY1 (tileY2 + 1)) by lia. reflexivity.
Qed.

End EmptyRange.

(** ** One retrieval, step by step *)

Section RetrievalRun.

Context {Geo : Type} {TS : TileSystemFloat Geo} {IM : Imagery}.
Variable self : AerialImageRetrieval Geo.
Variables lat1 lon1 lat2 lon2 : Geo.
Variables pixelX1 pixelY1 pixelX2 pixelY2 tileX1 tileY1 tileX2 tileY2 : Z.

Hypothesis corner1 :
  latlong_to_pixelXY lat1 lon1 MAXLEVEL = (pixelX1, pixelY1).
Hypothesis corner2 :
  latlong_to_pixelXY lat2 lon2 MAXLEVEL = (pixelX2, pixelY2).
Hypothesis tile1 : pixelXY_to_tileXY pixelX1 pixelY1 = (tileX1, tileY1).
Hypothesis tile2 : pixelXY_to_tileXY pixelX2 pixelY2 = (tileX2, tileY2).

(** A retrieval whose span does not collapse, in terms of its tile loops. *)
Lemma retrieval_run (w : World Geo) :
  1 < Z.abs (pixelX1 - pixelX2) -> 1 < Z.abs (pixelY1 - pixelY2) ->
  max_resolution_imagery_retrieval self lat1 lon1 lat2 lon2 w
  = if ((tileX2 - tileX1 + 1) * TILESIZE <? 0)
       || ((tileY2 - tileY1 + 1) * TILESIZE <? 0)
    then (Raise ValueError, w)
    else
      match fetch_rows MAXLEVEL tileX1 tileX2 tileY1
              (range tileY1 (tileY2 + 1))
              (blank ((tileX2 - tileX1 + 1) * TILESIZE)
                     ((tileY2 - tileY1 + 1) * TILESIZE)) w with
      | (Ok (inr raster), w1) =>
          if (width raster =? 0) || (height raster =? 0)
          then (Raise ValueError, w1)
          else (Ok true,
                printed (ImageSaved (mosaic_filename self lat1 lon1))
                  (mkWorld (requests w1) (null_png w1)
                     ((mosaic_filename self lat1 lon1, raster) :: files w1)
                     (stdout w1)))
      | (Ok (inl b), w1) => (Ok b, w1)
      | (Raise e, w1) => (Raise e, w1)
      end.
Proof.
  intros Hx Hy.
  rewrite retrieval_is_finest_level_attempt.
  unfold finest_level_attempt. rewrite corner1, corner2.
  assert (Hb : (Z.abs (pixelX1 - pixelX2) <=? 1)
               || (Z.abs (pixelY1 - pixelY2) <=? 1) = false).
  { apply orb_false_iff. split; apply Z.leb_gt; assumption. }
  rewrite Hb, tile1, tile2.
  unfold bind at 1. unfold Image_new.
  destruct (((tileX2 - tileX1 + 1) * TILESIZE <? 0)
            || ((tileY2 - tileY1 + 1) * TILESIZE <? 0)); [reflexivity |].
  unfold ret at 1. unfold bind at 1.
  destruct (fetch_rows MAXLEVEL tileX1 tileX2 tileY1 _ _ w)
    as [[[b | raster] | e] w1]; try reflexivity.
  unfold bind at 1. unfold Image_save.
  fold (mosaic_filename self lat1 lon1).
  destruct ((width raster =? 0) || (height raster =? 0)); reflexivity.
Qed.

(** The span collapses or it does not. *)
Lemma span_cases :
  (Z.abs (pixelX1 - pixelX2) <= 1 \/ Z.abs (pixelY1 - pixelY2) <= 1)
  \/ (1 < Z.abs (pixelX1 - pixelX2) /\ 1 < Z.abs (pixelY1 - pixelY2)).
Proof. lia. Qed.

End RetrievalRun.

(** ** What a retrieval leaves behind *)

(** The files and the output of a retrieval, whatever its course. *)
Lemma retrieval_frame {Geo : Type} {TS : TileSystemFloat Geo}
    {IM : Imagery} (self : AerialImageRetrieval Geo)
    (lat1 lon1 lat2 lon2 : Geo) (w : World Geo) :
  match max_resolution_imagery_retrieval self lat1 lon1 lat2 lon2 w with
  | (Ok true, w') =>
      (exists raster,
          files w' = (mosaic_filename self lat1 lon1, raster) :: files w)
      /\ stdout w' = ImageSaved (mosaic_filename self lat1 lon1) :: stdout w
  | (_, w') =>
      files w' = files w
      /\ (stdout w' = stdout w \/ stdout w' = NoImagery :: stdout w
          \/ exists tx ty, stdout w' = NoTile MAXLEVEL tx ty :: stdout w)
  end.
Proof.
  destruct (latlong_to_pixelXY lat1 lon1 MAXLEVEL) as [pixelX1 pixelY1] eqn:Hc1.
  destruct (latlong_to_pixelXY lat2 lon2 MAXLEVEL) as [pixelX2 pixelY2] eqn:Hc2.
  destruct (span_cases pixelX1 pixelY1 pixelX2 pixelY2) as [Hspan | [Hx Hy]].
  - rewrite (retrieval_collapsed self lat1 lon1 lat2 lon2 _ _ _ _ w
               Hc1 Hc2 Hspan).
    split; [reflexivity | right; left; reflexivity].
  - pose proof (retrieval_spec self lat1 lon1 lat2 lon2 _ _ _ _ _ _ _ _ w
                  Hc1 Hc2 Hx Hy eq_refl eq_refl) as Hspec.
    cbv zeta in Hspec.
    destruct ((_ <? 0) || (_ <? 0)).
    + rewrite Hspec. split; [reflexivity | left; reflexivity].
    + destruct Hspec as (w1 & (Hfiles & _) & Hspec).
      destruct (rows_outcome _ _ _ _ _ _ _) as [raster | tx ty | e].
      * destruct Hspec as [Hout ->].
        destruct ((width raster =? 0) || (height raster =? 0)).
        -- split; [exact Hfiles | left; exact Hout].
        -- split.
           ++ exists raster. simpl. rewrite Hfiles. reflexivity.
           ++ simpl. rewrite Hout. reflexivity.
      * destruct Hspec as [Hout ->].
        split; [exact Hfiles | right; right; exists tx, ty; exact Hout].
      * destruct Hspec as [Hout ->].
        split; [exact Hfiles | left; exact Hout].
Qed.

(** X1: a retrieval writes a file exactly when it returns [True]: then it has
    added one file, under the name of the box; when it returns [False] or an
    exception escapes, the files are as they were. *)
Theorem retrieval_saves_iff_true {Geo : Type} {TS : TileSystemFloat Geo}
    {IM : Imagery} (self : AerialImageRetrieval Geo)
    (lat1 lon1 lat2 lon2 : Geo) (w : World Geo) :
  match max_resolution_imagery_retrieval self lat1 lon1 lat2 lon2 w with
  | (Ok true, w') =>
      exists raster,
        files w' = (mosaic_filename self lat1 lon1, raster) :: files w
  | (_, w') => files w' = files w
  end.
Proof.
  pose proof (retrieval_frame self lat1 lon1 lat2 lon2 w) as Hframe.
  destruct (max_resolution_imagery_retrieval self lat1 lon1 lat2 lon2 w)
    as [[[|] | e] w']; apply Hframe.
Qed.

(** X5: a retrieval that starts with [null.png] in place leaves it in place. *)
Theorem retrieval_keeps_null_png {Geo : Type} {TS : TileSystemFloat Geo}
    {IM : Imagery} (self : AerialImageRetrieval Geo)
    (lat1 lon1 lat2 lon2 : Geo) (null : Image) (w : World Geo) :
  null_png w = Some null ->
  null_png (snd (max_resolution_imagery_retrieval self lat1 lon1 lat2 lon2 w))
  = Some null.
Proof.
  intros Hnull.
  destruct (latlong_to_pixelXY lat1 lon1 MAXLEVEL) as [pixelX1 pixelY1] eqn:Hc1.
  destruct (latlong_to_pixelXY lat2 lon2 MAXLEVEL) as [pixelX2 pixelY2] eqn:Hc2.
  destruct (span_cases pixelX1 pixelY1 pixelX2 pixelY2) as [Hspan | [Hx Hy]].
  - rewrite (retrieval_collapsed self lat1 lon1 lat2 lon2 _ _ _ _ w
               Hc1 Hc2 Hspan).
    exact Hnull.
  - rewrite (retrieval_run self lat1 lon1 lat2 lon2 _ _ _ _ _ _ _ _
               Hc1 Hc2 eq_refl eq_refl w Hx Hy).
    destruct ((_ <? 0) || (_ <? 0)); [exact Hnull |].
    pose proof (fetch_rows_cached MAXLEVEL null (pixelX1 / 256)
                  (pixelX2 / 256) (pixelY1 / 256)
                  (range (pixelY1 / 256) (pixelY2 / 256 + 1))
                  (blank ((pixelX2 / 256 - pixelX1 / 256 + 1) * TILESIZE)
                         ((pixelY2 / 256 - pixelY1 / 256 + 1) * TILESIZE))
                  w Hnull) as Hrows.
    destruct (rows_outcome _ _ _ _ _ _ _) as [raster | tx ty | e].
    + rewrite Hrows.
      destruct ((width raster =? 0) || (height raster =? 0)); exact Hnull.
    + destruct Hrows as (before & after & _ & _ & ->). exact Hnull.
    + destruct Hrows as (before & t & after & _ & _ & _ & ->). exact Hnull.
Qed.

(** ** The requests of a retrieval *)

(** X2: with [null.png] in place, a successful retrieval has opened exactly the
    URLs of the tiles of its range, each once, in row-major order: row by
    row from [tileY1] to [tileY2], each row from [tileX1] to [tileX2]. *)
Theorem tiles_fetched_in_row_major_order {Geo : Type}
    {TS : TileSystemFloat Geo} {IM : Imagery}
    (self : AerialImageRetrieval Geo) (lat1 lon1 lat2 lon2 : Geo)
    (pixelX1 pixelY1 pixelX2 pixelY2 tileX1 tileY1 tileX2 tileY2 : Z)
    (null : Image) (w w' : World Geo) :
  latlong_to_pixelXY lat1 lon1 MAXLEVEL = (pixelX1, pixelY1) ->
  latlong_to_pixelXY lat2 lon2 MAXLEVEL = (pixelX2, pixelY2) ->
  pixelXY_to_tileXY pixelX1 pixelY1 = (tileX1, tileY1) ->
  pixelXY_to_tileXY pixelX2 pixelY2 = (tileX2, tileY2) ->
  null_png w = Some null ->
  max_resolution_imagery_retrieval self lat1 lon1 lat2 lon2 w = (Ok true, w') ->
  requests w'
  = rev (map (tile_url MAXLEVEL)
             (row_major (range tileX1 (tileX2 + 1))
                        (range tileY1 (tileY2 + 1))))
      ++ requests w.
Proof.
  intros Hc1 Hc2 Ht1 Ht2 Hnull Hrun.
  destruct (retrieval_success_inv self _ _ _ _ _ _ _ _ _ _ _ _
              Hc1 Hc2 Ht1 Ht2 w w' Hrun) as (Hx & Hy & _).
  rewrite (retrieval_run self _ _ _ _ _ _ _ _ _ _ _ _ Hc1 Hc2 Ht1 Ht2 w Hx Hy)
    in Hrun.
  destruct ((_ <? 0) || (_ <? 0)); [discriminate |].
  pose proof (fetch_rows_cached MAXLEVEL null tileX1 tileX2 tileY1
                (range tileY1 (tileY2 + 1))
                (blank ((tileX2 - tileX1 + 1) * TILESIZE)
                       ((tileY2 - tileY1 + 1) * TILESIZE))
                w Hnull) as Hrows.
  destruct (rows_outcome _ _ _ _ _ _ _) as [raster | tx ty | e].
  - rewrite Hrows in Hrun.
    destruct ((width raster =? 0) || (height raster =? 0)); [discriminate |].
    injection Hrun as <-. reflexivity.
  - destruct Hrows as (before & after & _ & _ & Hrows).
    rewrite Hrows in Hrun. discriminate.
  - destruct Hrows as (before & t & after & _ & _ & _ & Hrows).
    rewrite Hrows in Hrun. discriminate.
Qed.

(** X3: with [null.png] in place and a span that does not collapse, a retrieval
    with an unavailable tile in its range stops at the first such tile in
    row-major order: it has opened the URLs of the tiles up to that one, in
    order, and of none after it, and it has written no file. *)
Theorem retrieval_stops_at_first_unavailable_tile {Geo : Type}
    {TS : TileSystemFloat Geo} {IM : Imagery}
    (self : AerialImageRetrieval Geo) (lat1 lon1 lat2 lon2 : Geo)
    (pixelX1 pixelY1 pixelX2 pixelY2 tileX1 tileY1 tileX2 tileY2 : Z)
    (tileX tileY : Z) (null : Image) (w : World Geo) :
  latlong_to_pixelXY lat1 lon1 MAXLEVEL = (pixelX1, pixelY1) ->
  latlong_to_pixelXY lat2 lon2 MAXLEVEL = (pixelX2, pixelY2) ->
  pixelXY_to_tileXY pixelX1 pixelY1 = (tileX1, tileY1) ->
  pixelXY_to_tileXY pixelX2 pixelY2 = (tileX2, tileY2) ->
  1 < Z.abs (pixelX1 - pixelX2) -> 1 < Z.abs (pixelY1 - pixelY2) ->
  null_png w = Some null ->
  tileX1 <= tileX <= tileX2 -> tileY1 <= tileY <= tileY2 ->
  unavailable (Some null) MAXLEVEL tileX tileY ->
  exists before stop after r w',
    row_major (range tileX1 (tileX2 + 1)) (range tileY1 (tileY2 + 1))
    = before ++ stop :: after
    /\ (forall t, In t before ->
                  ~ unavailable (Some null) MAXLEVEL (fst t) (snd t))
    /\ unavailable (Some null) MAXLEVEL (fst stop) (snd stop)
    /\ max_resolution_imagery_retrieval self lat1 lon1 lat2 lon2 w = (r, w')
    /\ (r = Ok false \/ r = Raise URLError)
    /\ requests w'
       = rev (map (tile_url MAXLEVEL) (before ++ [stop])) ++ requests w
    /\ files w' = files w.
Proof.
  intros Hc1 Hc2 Ht1 Ht2 Hx Hy Hnull HX HY Hun.
  rewrite (retrieval_run self _ _ _ _ _ _ _ _ _ _ _ _ Hc1 Hc2 Ht1 Ht2 w Hx Hy).
  assert (Hneg : ((tileX2 - tileX1 + 1) * TILESIZE <? 0)
                 || ((tileY2 - tileY1 + 1) * TILESIZE <? 0) = false).
  { apply orb_false_iff. unfold TILESIZE. split; apply Z.ltb_ge; lia. }
  rewrite Hneg.
  pose proof (fetch_rows_cached MAXLEVEL null tileX1 tileX2 tileY1
                (range tileY1 (tileY2 + 1))
                (blank ((tileX2 - tileX1 + 1) * TILESIZE)
                       ((tileY2 - tileY1 + 1) * TILESIZE))
                w Hnull) as Hrows.
  pose proof (rows_outcome_stops (Some null) MAXLEVEL tileX1 tileX2 tileY1
                (range tileY1 (tileY2 + 1))
                (blank ((tileX2 - tileX1 + 1) * TILESIZE)
                       ((tileY2 - tileY1 + 1) * TILESIZE))) as Hstops.
  destruct (rows_outcome _ _ _ _ _ _ _) as [raster | tx ty | e] eqn:Hout.
  - exfalso. apply rows_outcome_done in Hout. destruct Hout as [_ Hav].
    apply (Hav tileX tileY); [apply range_In; lia | apply range_In; lia |].
    exact Hun.
  - destruct Hrows as (before & after & Hsplit & Hbefore & ->).
    destruct Hstops as (_ & _ & Hbad).
    exists before, (tx, ty), after, (Ok false). eexists.
    split; [exact Hsplit |]. split; [exact Hbefore |].
    split; [exact Hbad |]. split; [reflexivity |].
    split; [left; reflexivity |]. split; reflexivity.
  - destruct Hrows as (before & t & after & Hsplit & Hbefore & Hnone & ->).
    subst e.
    exists before, t, after, (Raise URLError). eexists.
    split; [exact Hsplit |]. split; [exact Hbefore |].
    split; [unfold unavailable; rewrite Hnone; exact I |].
    split; [reflexivity |].
    split; [right; reflexivity |]. split; reflexivity.
Qed.

(** X10: a box whose second corner lies in a tile column left of, or in a tile
    row above, the first corner's never yields a mosaic: [ValueError] escapes
    from the retrieval, which has opened no URL, written no file and printed
    nothing. *)
Theorem misordered_corners_raise {Geo : Type} {TS : TileSystemFloat Geo}
    {IM : Imagery} (self : AerialImageRetrieval Geo)
    (lat1 lon1 lat2 lon2 : Geo)
    (pixelX1 pixelY1 pixelX2 pixelY2 tileX1 tileY1 tileX2 tileY2 : Z)
    (w : World Geo) :
  latlong_to_pixelXY lat1 lon1 MAXLEVEL = (pixelX1, pixelY1) ->
  latlong_to_pixelXY lat2 lon2 MAXLEVEL = (pixelX2, pixelY2) ->
  pixelXY_to_tileXY pixelX1 pixelY1 = (tileX1, tileY1) ->
  pixelXY_to_tileXY pixelX2 pixelY2 = (tileX2, tileY2) ->
  1 < Z.abs (pixelX1 - pixelX2) -> 1 < Z.abs (pixelY1 - pixelY2) ->
  tileX2 < tileX1 \/ tileY2 < tileY1 ->
  max_resolution_imagery_retrieval self lat1 lon1 lat2 lon2 w
  = (Raise ValueError, w).
Proof.
  intros Hc1 Hc2 Ht1 Ht2 Hx Hy Horder.
  rewrite (retrieval_run self _ _ _ _ _ _ _ _ _ _ _ _ Hc1 Hc2 Ht1 Ht2 w Hx Hy).
  destruct (((tileX2 - tileX1 + 1) * TILESIZE <? 0)
            || ((tileY2 - tileY1 + 1) * TILESIZE <? 0)) eqn:Hneg;
    [reflexivity |].
  apply orb_false_iff in Hneg. destruct Hneg as [HW HH].
  apply Z.ltb_ge in HW, HH. unfold TILESIZE in HW, HH.
  rewrite (fetch_rows_nothing_to_fetch MAXLEVEL tileX1 tileX2 tileY1 tileY2)
    by (try exact Horder; lia).
  rewrite compose_rows_width, compose_rows_height. simpl width. simpl height.
  assert (Hzero : ((tileX2 - tileX1 + 1) * TILESIZE =? 0)
                  || ((tileY2 - tileY1 + 1) * TILESIZE =? 0) = true).
  { apply orb_true_iff. unfold TILESIZE.
    destruct Horder; [left | right]; apply Z.eqb_eq; lia. }
  rewrite Hzero. reflexivity.
Qed.

(** ** The bounding box of one coordinate, step by step *)

Section BoxRun.

Context {Geo : Type} {TS : TileSystemFloat Geo}.
Variable self : AerialImageRetrieval Geo.

(** [calculate_bounding_box] either raises at once or prints two lines and
    returns. *)
Lemma calculate_bounding_box_run (lat lon : Geo) (w : World Geo) :
  let pixels :=
    clipped_corner_pixels lat lon
      (size_meters self / 2 / ground_resolution lat MAXLEVEL)%R in
  let '(pixelX1, pixelY1, pixelX2, pixelY2) := pixels in
  let '(lat1, lon1, lat2, lon2) := box_of_pixels pixels in
  calculate_bounding_box self lat lon w
  = if Req_dec_T (ground_resolution lat MAXLEVEL) 0
    then (Raise ZeroDivisionError, w)
    else (Ok (lat1, lon1, lat2, lon2),
          printed (CalculatedBoundingBox lat1 lon1 lat2 lon2)
            (printed (ClippedPixels pixelX1 pixelY1 pixelX2 pixelY2) w)).
Proof.
  intros pixels. subst pixels.
  unfold clipped_corner_pixels, calculate_bounding_box, box_of_pixels.
  destruct (latlong_to_pixelXY lat lon MAXLEVEL) as [cx cy].
  set (half := (size_meters self / 2 / ground_resolution lat MAXLEVEL)%R).
  destruct (pixelXY_to_latlong (clip (IZR cx - half) _ _) _ MAXLEVEL)
    as [lat1 lon1] eqn:E1.
  destruct (pixelXY_to_latlong (clip (IZR cx + half) _ _) _ MAXLEVEL)
    as [lat2 lon2] eqn:E2.
  unfold bind at 1. unfold py_div.
  destruct (Req_dec_T (ground_resolution lat MAXLEVEL) 0) as [Hz | Hnz].
  - reflexivity.
  - unfold ret at 1. fold half.
    unfold bind at 1. unfold print at 1.
    rewrite E1, E2. reflexivity.
Qed.

(** What a returning [calculate_bounding_box] leaves behind: two lines of
    output that are neither a processing nor a failure line. *)
Lemma calculate_bounding_box_frame (lat lon : Geo)
    (box : Geo * Geo * Geo * Geo) (w w' : World Geo) :
  calculate_bounding_box self lat lon w = (Ok box, w') ->
  requests w' = requests w /\ files w' = files w
  /\ null_png w' = null_png w
  /\ processing_lines (stdout w') = processing_lines (stdout w)
  /\ failed_lines (stdout w') = failed_lines (stdout w).
Proof.
  intros Hrun.
  pose proof (calculate_bounding_box_run lat lon w) as Hbox.
  cbv zeta in Hbox.
  destruct (clipped_corner_pixels lat lon _) as [[[x1 y1] x2] y2].
  destruct (box_of_pixels _) as [[[lat1 lon1] lat2] lon2].
  rewrite Hbox in Hrun.
  destruct (Req_dec_T (ground_resolution lat MAXLEVEL) 0); [discriminate |].
  injection Hrun as _ <-. repeat split; reflexivity.
Qed.

End BoxRun.

(** ** The batch, coordinate by coordinate *)

Section BatchAccounts.

Context {Geo : Type} {TS : TileSystemFloat Geo} {IM : Imagery}.
Variable self : AerialImageRetrieval Geo.

(** One returning turn of the loop prints one processing line and leaves
    either one more file or one more failure line. *)
Lemma retrieve_one_accounts (lat lon : Geo) (w w' : World Geo) :
  retrieve_one self (lat, lon) w = (Ok tt, w') ->
  processing_lines (stdout w') = (lat, lon) :: processing_lines (stdout w)
  /\ (List.length (files w') + List.length (failed_lines (stdout w'))
      = S (List.length (files w) + List.length (failed_lines (stdout w))))%nat.
Proof.
  unfold retrieve_one. unfold bind at 1.
  destruct (calculate_bounding_box self lat lon w) as [[box | e] w1] eqn:Hbox;
    [| discriminate].
  destruct (calculate_bounding_box_frame self lat lon box w w1 Hbox)
    as (_ & Hf1 & _ & Hp1 & Hfl1).
  destruct box as [[[lat1 lon1] lat2] lon2].
  unfold bind at 1. unfold print at 1. unfold bind at 1.
  pose proof (retrieval_frame self lat1 lon1 lat2 lon2
                (printed (Processing lat lon) w1)) as Hframe.
  destruct (max_resolution_imagery_retrieval self lat1 lon1 lat2 lon2
              (printed (Processing lat lon) w1)) as [[success | e] w2];
    [| discriminate].
  simpl files in Hframe. simpl stdout in Hframe.
  destruct success; cbn [negb].
  - intros Hret. injection Hret as <-.
    destruct Hframe as [[raster Hfiles] Hout].
    rewrite Hfiles, Hout. simpl. rewrite Hp1, Hfl1, Hf1.
    split; [reflexivity | lia].
  - intros Hret. injection Hret as <-.
    destruct Hframe as [Hfiles Hout]. simpl.
    rewrite Hfiles, Hf1.
    destruct Hout as [-> | [-> | (tx & ty & ->)]]; simpl;
      rewrite Hp1, Hfl1; split; reflexivity || lia.
Qed.

Lemma for_each_accounts (items : list (Geo * Geo)) :
  forall w w',
    for_each items (retrieve_one self) w = (Ok tt, w') ->
    processing_lines (stdout w') = rev items ++ processing_lines (stdout w)
    /\ (List.length (files w') + List.length (failed_lines (stdout w'))
        = List.length (files w) + List.length (failed_lines (stdout w))
          + List.length items)%nat.
Proof.
  induction items as [| [lat lon] rest IH]; intros w w' Hrun.
  - simpl in Hrun. injection Hrun as <-. split; [reflexivity | simpl; lia].
  - cbn [for_each] in Hrun. unfold bind at 1 in Hrun.
    destruct (retrieve_one self (lat, lon) w) as [[[] | e] w1] eqn:Hone;
      [| discriminate].
    destruct (retrieve_one_accounts lat lon w w1 Hone) as [Hp1 Hn1].
    destruct (IH w1 w' Hrun) as [Hp Hn].
    split.
    + rewrite Hp, Hp1. simpl. rewrite <- app_assoc. reflexivity.
    + rewrite Hn. simpl. lia.
Qed.

(** X7: when [retrieve_images] returns, it has printed one processing line for
    every coordinate, in the order of the list, and every coordinate has
    left either a saved file or a failure line: the files written and the
    failure lines printed are, together, as many as the coordinates. *)
Theorem batch_accounts_for_every_coordinate (w w' : World Geo) :
  retrieve_images self w = (Ok tt, w') ->
  processing_lines (stdout w')
  = rev (coords self) ++ processing_lines (stdout w)
  /\ (List.length (files w') + List.length (failed_lines (stdout w'))
      = List.length (files w) + List.length (failed_lines (stdout w))
        + List.length (coords self))%nat.
Proof.
  intros Hrun. exact (for_each_accounts (coords self) w w' Hrun).
Qed.

(** X8: an exception that escapes from the retrieval of one coordinate ends the
    batch: [retrieve_images] raises it, in the world the retrieval left, and
    the coordinates after it are not processed. *)
Theorem exception_ends_batch (pre post : list (Geo * Geo))
    (lat lon lat1 lon1 lat2 lon2 : Geo) (e : Exn) (w w1 w2 w3 : World Geo) :
  coords self = pre ++ (lat, lon) :: post ->
  for_each pre (retrieve_one self) w = (Ok tt, w1) ->
  calculate_bounding_box self lat lon w1 = (Ok (lat1, lon1, lat2, lon2), w2) ->
  max_resolution_imagery_retrieval self lat1 lon1 lat2 lon2
    (printed (Processing lat lon) w2) = (Raise e, w3) ->
  retrieve_images self w = (Raise e, w3).
Proof.
  intros Hcoords Hpre Hbox Hrun.
  unfold retrieve_images. rewrite Hcoords.
  rewrite (for_each_app _ pre _ w w1 Hpre).
  cbn [for_each]. unfold bind at 1.
  unfold retrieve_one. unfold bind at 1. rewrite Hbox.
  unfold bind at 1. unfold print at 1. unfold bind at 1.
  rewrite Hrun. reflexivity.
Qed.

(** X9: a retrieval object of size zero fetches nothing: for every coordinate
    both corners of the box are the same point, the span collapses, and the
    coordinate is reported as failed. *)
Theorem zero_size_fails_without_fetch (lat lon : Geo) (w : World Geo) :
  size_meters self = 0%R ->
  ground_resolution lat MAXLEVEL <> 0%R ->
  exists lat1 lon1 w1,
    calculate_bounding_box self lat lon w = (Ok (lat1, lon1, lat1, lon1), w1)
    /\ requests w1 = requests w /\ files w1 = files w
    /\ retrieve_one self (lat, lon) w
       = (Ok tt,
          printed (FailedLocation lat lon)
            (printed NoImagery (printed (Processing lat lon) w1))).
Proof.
  intros Hsize Hres.
  pose proof (calculate_bounding_box_run self lat lon w) as Hbox.
  cbv zeta in Hbox. unfold clipped_corner_pixels, box_of_pixels in Hbox.
  destruct (latlong_to_pixelXY lat lon MAXLEVEL) as [cx cy].
  rewrite Hsize in Hbox.
  replace (0 / 2 / ground_resolution lat MAXLEVEL)%R with 0%R in Hbox
    by (unfold Rdiv; rewrite !Rmult_0_l; reflexivity).
  rewrite !Rminus_0_r, !Rplus_0_r in Hbox.
  destruct (pixelXY_to_latlong _ _ MAXLEVEL) as [lat1 lon1].
  destruct (Req_dec_T (ground_resolution lat MAXLEVEL) 0) as [Hz | _];
    [contradiction |].
  eexists lat1, lon1, _. split; [exact Hbox |].
  split; [reflexivity |]. split; [reflexivity |].
  unfold retrieve_one. unfold bind at 1. rewrite Hbox.
  unfold bind at 1. unfold print at 1. unfold bind at 1.
  destruct (latlong_to_pixelXY lat1 lon1 MAXLEVEL) as [px py] eqn:Hp.
  rewrite (retrieval_collapsed self lat1 lon1 lat1 lon1 px py px py _ Hp Hp).
  - reflexivity.
  - left. rewrite Z.sub_diag. simpl. lia.
Qed.

End BatchAccounts.

(** ** The mosaic has no gaps *)

(** X6: after a successful retrieval, with tiles of 256x256 pixels, every pixel
    of the saved raster comes from a tile of the range: the pixel [(x, y)] is
    the pixel [(x mod 256, y mod 256)] of the tile in column
    [tileX1 + x / 256] and row [tileY1 + y / 256]. *)
Theorem mosaic_has_no_gaps {Geo : Type} {TS : TileSystemFloat Geo}
    {IM : Imagery} (self : AerialImageRetrieval Geo)
    (lat1 lon1 lat2 lon2 : Geo)
    (pixelX1 pixelY1 pixelX2 pixelY2 tileX1 tileY1 tileX2 tileY2 : Z)
    (w w' : World Geo) :
  tiles_are_256 ->
  latlong_to_pixelXY lat1 lon1 MAXLEVEL = (pixelX1, pixelY1) ->
  latlong_to_pixelXY lat2 lon2 MAXLEVEL = (pixelX2, pixelY2) ->
  pixelXY_to_tileXY pixelX1 pixelY1 = (tileX1, tileY1) ->
  pixelXY_to_tileXY pixelX2 pixelY2 = (tileX2, tileY2) ->
  max_resolution_imagery_retrieval self lat1 lon1 lat2 lon2 w = (Ok true, w') ->
  exists raster,
    files w' = (mosaic_filename self lat1 lon1, raster) :: files w
    /\ forall x y,
         0 <= x < width raster -> 0 <= y < height raster ->
         exists tile,
           tile_at MAXLEVEL (tileX1 + x / 256) (tileY1 + y / 256) = Some tile
           /\ getpixel raster x y = getpixel tile (x mod 256) (y mod 256).
Proof.
  intros Hsize Hc1 Hc2 Ht1 Ht2 Hrun.
  destruct (retrieval_success_inv self _ _ _ _ _ _ _ _ _ _ _ _
              Hc1 Hc2 Ht1 Ht2 w w' Hrun)
    as (_ & _ & HX & HY & Hav & w1 & _ & ->).
  exists (composed MAXLEVEL tileX1 tileY1 tileX2 tileY2).
  split; [reflexivity |].
  intros x y. rewrite composed_width, composed_height. intros Hx Hy.
  pose proof (Z.div_mod x 256 ltac:(lia)) as Ex.
  pose proof (Z.mod_pos_bound x 256 ltac:(lia)) as Bx.
  pose proof (Z.div_mod y 256 ltac:(lia)) as Ey.
  pose proof (Z.mod_pos_bound y 256 ltac:(lia)) as By.
  remember (tileX1 + x / 256) as tx eqn:Etx.
  remember (tileY1 + y / 256) as ty eqn:Ety.
  remember (x mod 256) as u eqn:Eu.
  remember (y mod 256) as v eqn:Ev.
  assert (Htx : tileX1 <= tx <= tileX2) by lia.
  assert (Hty : tileY1 <= ty <= tileY2) by lia.
  destruct (available_served _ _ _ _ (Hav tx ty Htx Hty)) as [_ Hserved].
  destruct (tile_at MAXLEVEL tx ty) as [tile |] eqn:Htile; [| contradiction].
  exists tile. split; [reflexivity |].
  assert (Hx' : x = (tx - tileX1) * 256 + u) by lia.
  assert (Hy' : y = (ty - tileY1) * 256 + v) by lia.
  rewrite Hx', Hy'.
  rewrite composed_tile_pixel; try assumption.
  - unfold tile_image. rewrite Htile. reflexivity.
  - intros tx' ty' Hx'' Hy''.
    destruct (available_served _ _ _ _ (Hav tx' ty' Hx'' Hy'')) as [_ Hs].
    unfold tile_image.
    destruct (tile_at MAXLEVEL tx' ty') as [image |] eqn:Himage;
      [| contradiction].
    exact (Hsize _ _ Himage).
Qed.

(** ** More scenarios, run *)

Section MoreRuns.

Import Scenario.

Lemma clip_inside (v lo hi : R) : (lo <= v <= hi)%R -> clip v lo hi = v.
Proof.
  intros [Hlo Hhi]. unfold clip.
  rewrite (Rmax_left v lo Hlo). apply Rmin_left. exact Hhi.
Qed.

(** Over [split_grid] the box of the first of the two places has the
    corners [(0, 0)] and [(300, 600)]. *)
Lemma split_grid_first_box (w : World Z) :
  calculate_bounding_box (TS := split_grid) two_places 500 1000 w
  = (Ok (0, 0, 300, 600),
     snd (calculate_bounding_box (TS := split_grid) two_places 500 1000 w)).
Proof.
  apply injective_projections; [| reflexivity].
  pose proof (calculate_bounding_box_run (TS := split_grid)
                two_places 500 1000 w) as Hrun.
  cbv zeta in Hrun.
  unfold clipped_corner_pixels, box_of_pixels in Hrun.
  cbn [latlong_to_pixelXY pixelXY_to_latlong ground_resolution
       split_grid size_meters two_places init] in Hrun.
  change (Z.shiftr 1000 (MAXLEVEL - MAXLEVEL)) with 1000 in Hrun.
  change (Z.shiftr 500 (MAXLEVEL - MAXLEVEL)) with 500 in Hrun.
  change (map_size MAXLEVEL - 1) with 2147483647 in Hrun.
  rewrite !clip_inside in Hrun by lra.
  destruct (Rle_dec (1000 - 200 / 2 / 1) 1000) as [_ | Hn]; [| exfalso; lra].
  destruct (Rle_dec (1000 + 200 / 2 / 1) 1000) as [Hn | _]; [exfalso; lra |].
  destruct (Req_dec_T 1 0) as [Hn | _]; [exfalso; lra |].
  rewrite Hrun. reflexivity.
Qed.

Lemma run_cached_coverage :
  max_resolution_imagery_retrieval (TS := pixel_grid) (IM := coverage red)
    retrieval 0 0 300 600 cached
  = (Ok true,
     snd (max_resolution_imagery_retrieval
            (TS := pixel_grid) (IM := coverage red)
            retrieval 0 0 300 600 cached)).
Proof.
  apply injective_projections; [vm_compute; reflexivity | reflexivity].
Qed.

Lemma run_offline_after_box (w : World Z) :
  max_resolution_imagery_retrieval (TS := split_grid) (IM := offline)
    two_places 0 0 300 600 w
  = (Raise URLError,
     snd (max_resolution_imagery_retrieval (TS := split_grid) (IM := offline)
            two_places 0 0 300 600 w)).
Proof.
  apply injective_projections; [| reflexivity].
  rewrite (retrieval_run (TS := split_grid) (IM := offline)
             two_places 0 0 300 600 0 0 600 300 0 0 2 1
             eq_refl eq_refl eq_refl eq_refl w)
    by (simpl; lia).
  reflexivity.
Qed.

Lemma batch_of_failures_returns :
  retrieve_images (TS := pixel_grid) (IM := offline) retrieval fresh
  = (Ok tt,
     snd (retrieve_images (TS := pixel_grid) (IM := offline) retrieval fresh)).
Proof.
  apply injective_projections; [| reflexivity].
  unfold retrieve_images, retrieve_one, calculate_bounding_box, bind, py_div.
  simpl.
  destruct (Req_dec_T 1 0) as [Habs | _]; [lra | reflexivity].
Qed.

End MoreRuns.

Lemma retrieval_keeps_null_png_witness :
  null_png (snd (max_resolution_imagery_retrieval
                   (TS := Scenario.pixel_grid) (IM := Scenario.gap)
                   Scenario.retrieval 0 0 300 600 Scenario.cached))
  = Some Scenario.placeholder.
Proof.
  apply (retrieval_keeps_null_png
           (TS := Scenario.pixel_grid) (IM := Scenario.gap)
           Scenario.retrieval 0 0 300 600 Scenario.placeholder
           Scenario.cached).
  reflexivity.
Defined.

Lemma tiles_fetched_in_row_major_order_witness :
  requests (snd (max_resolution_imagery_retrieval
                   (TS := Scenario.pixel_grid)
                   (IM := Scenario.coverage Scenario.red)
                   Scenario.retrieval 0 0 300 600 Scenario.cached))
  = rev (map (tile_url MAXLEVEL)
             (row_major (range 0 (2 + 1)) (range 0 (1 + 1))))
      ++ requests Scenario.cached.
Proof.
  apply (tiles_fetched_in_row_major_order
           (TS := Scenario.pixel_grid)
           (IM := Scenario.coverage Scenario.red)
           Scenario.retrieval 0 0 300 600 0 0 600 300 0 0 2 1
           Scenario.placeholder Scenario.cached).
  - reflexivity.
  - reflexivity.
  - reflexivity.
  - reflexivity.
  - reflexivity.
  - apply run_cached_coverage.
Defined.

Lemma retrieval_stops_at_first_unavailable_tile_witness :
  exists before stop after r w',
    row_major (range 0 (2 + 1)) (range 0 (1 + 1)) = before ++ stop :: after
    /\ (forall t, In t before ->
                  ~ unavailable (IM := Scenario.gap)
                      (Some Scenario.placeholder) MAXLEVEL (fst t) (snd t))
    /\ unavailable (IM := Scenario.gap)
         (Some Scenario.placeholder) MAXLEVEL (fst stop) (snd stop)
    /\ max_resolution_imagery_retrieval
         (TS := Scenario.pixel_grid) (IM := Scenario.gap)
         Scenario.retrieval 0 0 300 600 Scenario.cached = (r, w')
    /\ (r = Ok false \/ r = Raise URLError)
    /\ requests w'
       = rev (map (tile_url MAXLEVEL) (before ++ [stop]))
           ++ requests Scenario.cached
    /\ files w' = files Scenario.cached.
Proof.
  apply (retrieval_stops_at_first_unavailable_tile
           (TS := Scenario.pixel_grid) (IM := Scenario.gap)
           Scenario.retrieval 0 0 300 600 0 0 600 300 0 0 2 1 1 0
           Scenario.placeholder Scenario.cached).
  - reflexivity.
  - reflexivity.
  - reflexivity.
  - reflexivity.
  - simpl. lia.
  - simpl. lia.
  - reflexivity.
  - lia.
  - lia.
  - vm_compute. reflexivity.
Defined.

Lemma misordered_corners_raise_witness :
  max_resolution_imagery_retrieval
    (TS := Scenario.pixel_grid) (IM := Scenario.coverage Scenario.red)
    Scenario.retrieval 0 600 300 0 Scenario.fresh
  = (Raise ValueError, Scenario.fresh).
Proof.
  apply (misordered_corners_raise
           (TS := Scenario.pixel_grid)
           (IM := Scenario.coverage Scenario.red)
           Scenario.retrieval 0 600 300 0 600 0 0 300 2 0 0 1
           Scenario.fresh).
  - reflexivity.
  - reflexivity.
  - reflexivity.
  - reflexivity.
  - simpl. lia.
  - simpl. lia.
  - left. lia.
Defined.

Lemma mosaic_has_no_gaps_witness :
  exists raster,
    files (snd (Scenario.run (Scenario.coverage Scenario.red)))
    = (mosaic_filename (TS := Scenario.pixel_grid) Scenario.retrieval 0 0,
       raster) :: files Scenario.fresh
    /\ forall x y,
         0 <= x < width raster -> 0 <= y < height raster ->
         exists tile,
           tile_at (IM := Scenario.coverage Scenario.red)
                   MAXLEVEL (0 + x / 256) (0 + y / 256) = Some tile
           /\ getpixel raster x y = getpixel tile (x mod 256) (y mod 256).
Proof.
  apply (mosaic_has_no_gaps
           (TS := Scenario.pixel_grid)
           (IM := Scenario.coverage Scenario.red)
           Scenario.retrieval 0 0 300 600 0 0 600 300 0 0 2 1
           Scenario.fresh).
  - apply coverage_tiles_are_256.
  - reflexivity.
  - reflexivity.
  - reflexivity.
  - reflexivity.
  - apply (run_coverage Scenario.red). left. reflexivity.
Defined.

Lemma batch_accounts_for_every_coordinate_witness :
  processing_lines
    (stdout (snd (retrieve_images (TS := Scenario.pixel_grid)
                    (IM := Scenario.offline)
                    Scenario.retrieval Scenario.fresh)))
  = rev (coords Scenario.retrieval)
      ++ processing_lines (stdout Scenario.fresh)
  /\ (List.length
        (files (snd (retrieve_images (TS := Scenario.pixel_grid)
                       (IM := Scenario.offline)
                       Scenario.retrieval Scenario.fresh)))
      + List.length
          (failed_lines
             (stdout (snd (retrieve_images (TS := Scenario.pixel_grid)
                             (IM := Scenario.offline)
                             Scenario.retrieval Scenario.fresh))))
      = List.length (files Scenario.fresh)
        + List.length (failed_lines (stdout Scenario.fresh))
        + List.length (coords Scenario.retrieval))%nat.
Proof.
  apply (batch_accounts_for_every_coordinate
           (TS := Scenario.pixel_grid) (IM := Scenario.offline)
           Scenario.retrieval Scenario.fresh).
  apply batch_of_failures_returns.
Defined.

Lemma exception_ends_batch_witness :
  retrieve_images (TS := Scenario.split_grid) (IM := Scenario.offline)
    Scenario.two_places Scenario.fresh
  = (Raise URLError,
     snd (max_resolution_imagery_retrieval
            (TS := Scenario.split_grid) (IM := Scenario.offline)
            Scenario.two_places 0 0 300 600
            (printed (Processing 500 1000)
               (snd (calculate_bounding_box (TS := Scenario.split_grid)
                       Scenario.two_places 500 1000 Scenario.fresh))))).
Proof.
  apply (exception_ends_batch
           (TS := Scenario.split_grid) (IM := Scenario.offline)
           Scenario.two_places [] [(500, 5000)] 500 1000 0 0 300 600
           URLError Scenario.fresh Scenario.fresh
           (snd (calculate_bounding_box (TS := Scenario.split_grid)
                   Scenario.two_places 500 1000 Scenario.fresh))).
  - reflexivity.
  - reflexivity.
  - apply split_grid_first_box.
  - apply run_offline_after_box.
Defined.

Lemma zero_size_fails_without_fetch_witness :
  exists lat1 lon1 w1,
    calculate_bounding_box (TS := Scenario.pixel_grid)
      (init [(5, 7)] 0) 5 7 Scenario.fresh
    = (Ok (lat1, lon1, lat1, lon1), w1)
    /\ requests w1 = requests Scenario.fresh
    /\ files w1 = files Scenario.fresh
    /\ retrieve_one (TS := Scenario.pixel_grid) (IM := Scenario.offline)
         (init [(5, 7)] 0) (5, 7) Scenario.fresh
       = (Ok tt,
          printed (FailedLocation 5 7)
            (printed NoImagery (printed (Processing 5 7) w1))).
Proof.
  apply (zero_size_fails_without_fetch
           (TS := Scenario.pixel_grid) (IM := Scenario.offline)
           (init [(5, 7)] 0) 5 7 Scenario.fresh).
  - reflexivity.
  - simpl. lra.
Defined.

(** C5, as it is stated, fails: over an unreachable service the retrieval of
    the first of two places meets a tile whose fetch fails; [URLError] ends
    the batch, and the second place never gets its processing line. *)
Lemma failed_fetch_stops_batch : ~ Stated.unavailable_tile_lets_batch_go_on.
Proof.
  intros Hclaim.
  pose proof (split_grid_first_box Scenario.fresh) as Hbox.
  set (w2 := snd (calculate_bounding_box (TS := Scenario.split_grid)
                    Scenario.two_places 500 1000 Scenario.fresh)) in *.
  pose proof (run_offline_after_box (printed (Processing 500 1000) w2))
    as Hrun.
  set (w3 := snd (max_resolution_imagery_retrieval
                    (TS := Scenario.split_grid) (IM := Scenario.offline)
                    Scenario.two_places 0 0 300 600
                    (printed (Processing 500 1000) w2))) in *.
  assert (Hin : In (500, 5000)
                   (processing_lines
                      (stdout (snd (retrieve_images
                                      (TS := Scenario.split_grid)
                                      (IM := Scenario.offline)
                                      Scenario.two_places Scenario.fresh))))).
  { apply (Hclaim Z Scenario.split_grid Scenario.offline Scenario.two_places
             [] [(500, 5000)] 500 1000 0 0 300 600 0 0 600 300 0 0 2 1 0 0
             Scenario.fresh Scenario.fresh w2);
      [ reflexivity | reflexivity | exact Hbox
      | reflexivity | reflexivity | reflexivity | reflexivity
      | simpl; lia | simpl; lia | lia | lia
      | unfold unavailable, tile_at; simpl; exact I
      | left; reflexivity ]. }
  rewrite (retrieve_images_turn (TS := Scenario.split_grid)
             (IM := Scenario.offline) Scenario.two_places
             [] [(500, 5000)] 500 1000 0 0 300 600 (Raise URLError)
             Scenario.fresh Scenario.fresh w2 w3 eq_refl eq_refl Hbox Hrun)
    in Hin.
  cbn [snd] in Hin.
  pose proof (retrieval_frame (TS := Scenario.split_grid)
                (IM := Scenario.offline) Scenario.two_places 0 0 300 600
                (printed (Processing 500 1000) w2)) as Hframe.
  rewrite Hrun in Hframe. destruct Hframe as [_ Hout].
  destruct (calculate_bounding_box_frame (TS := Scenario.split_grid)
              Scenario.two_places 500 1000 _ Scenario.fresh w2 Hbox)
    as (_ & _ & _ & Hlines & _).
  assert (Hlines3 : processing_lines (stdout w3) = [(500, 1000)]).
  { destruct Hout as [-> | [-> | (tx & ty & ->)]]; simpl;
      rewrite Hlines; reflexivity. }
  rewrite Hlines3 in Hin. destruct Hin as [Heq | []].
  discriminate Heq.
Qed.
